(** * Minhas Tarefas: the task store of [src/App.tsx] and its persistence

    A shallow embedding of the state logic of the [App] component: the
    [Todo] record, the handlers [addTodo], [toggleTodo], [deleteTodo] and
    the footer's clear button, the derived [filteredTodos] and [stats],
    the [useState] initialiser reading [localStorage] and the [useEffect]
    writing it back.

    Conventions.
    - A JavaScript string is the list of its UTF-16 code units
      ([jsstring]); every code unit is below [2^16] ([wf_string]).
    - [createdAt] holds the result of [Date.now()], an integral Number
      within 8.64e15 of zero; it is modelled by [Z].  A [Z] stands for the
      Number the code holds as long as its magnitude is below [2^53]
      ([plain_number]): there every integer is a double, and
      [Number::toString] prints its exact decimal digits.
    - The state of the component is modelled typed, as a list of [Todo]
      records.  A stored value that [JSON.parse] accepts and that is not
      the text of such a list (see [todos_of_json]) is one the component
      does mount from; the model names it ([IllTyped]) and does not
      follow it.
    - [crypto.randomUUID()] and [Date.now()] are answers of the
      environment: the handler that consults them takes them as
      arguments.
    - [String.prototype.trim], [JSON.parse] and [JSON.stringify] are
      built-ins of the platform; they are written out here after
      ECMA-262: the white space that [trim] strips, the JSON grammar,
      [QuoteJSONString] and the serialisation of arrays and objects.
    - Presentation (JSX, class names, animation) is not modelled. *)

From Stdlib Require Import List Bool Arith NArith ZArith Lia String Ascii.
From Stdlib Require Import Permutation.
From Stdlib Require DecimalPos DecimalN DecimalFacts.
Import ListNotations.

Set Warnings "-register-all".
Local Open Scope N_scope.

(** ** JavaScript strings *)

Definition code_unit := N.
Definition jsstring := list code_unit.

Definition wf_string (s : jsstring) : Prop := Forall (fun c => c < 65536) s.

(** An ASCII literal of the source as a [jsstring]. *)
Definition lit (s : string) : jsstring :=
  List.map N_of_ascii (list_ascii_of_string s).

(** [===] on two strings: same sequence of code units. *)
Fixpoint jsstring_eqb (a b : jsstring) : bool :=
  match a, b with
  | [], [] => true
  | x :: a', y :: b' => (x =? y) && jsstring_eqb a' b'
  | _, _ => false
  end.

(** WhiteSpace and LineTerminator code points of ECMAScript, the ones
    [String.prototype.trim] strips: TAB, LF, VT, FF, CR, SP, NBSP, the
    Unicode [Zs] class, LS, PS and ZWNBSP. *)
Definition is_js_space (c : code_unit) : bool :=
  ((9 <=? c) && (c <=? 13))
  || (c =? 32) || (c =? 160) || (c =? 5760)
  || ((8192 <=? c) && (c <=? 8202))
  || (c =? 8232) || (c =? 8233) || (c =? 8239) || (c =? 8287)
  || (c =? 12288) || (c =? 65279).

Fixpoint trimStart (s : jsstring) : jsstring :=
  match s with
  | [] => []
  | c :: r => if is_js_space c then trimStart r else s
  end.

Definition trimEnd (s : jsstring) : jsstring := rev (trimStart (rev s)).

(** [s.trim()] *)
Definition trim (s : jsstring) : jsstring := trimEnd (trimStart s).

(** Truthiness of a string: the empty string is the only falsy one. *)
Definition truthy (s : jsstring) : bool :=
  match s with [] => false | _ :: _ => true end.


(** ** JSON values

    What [JSON.parse] returns.  A number is kept as the exact decimal its
    text denotes, [(-1)^negative * digits * 10^exp10] (the engine rounds
    that to the nearest double, which changes nothing for the integers
    [JSON.stringify] writes for a [createdAt]).  An object is kept as the
    list of its members in the order of the text; reading a property
    takes the last member of that name, as a later duplicate overwrites
    an earlier one. *)

Record JSNumber : Type := mkNumber {
  negative : bool;
  digits : N;
  exp10 : Z
}.

Inductive JSON : Type :=
| JNull
| JBool (b : bool)
| JNumber (n : JSNumber)
| JString (s : jsstring)
| JArray (elements : list JSON)
| JObject (members : list (jsstring * JSON)).

(** The one exception [JSON.parse] throws. *)
Inductive JSError : Type := SyntaxError.

(** The completion of an evaluation: a value, or an exception thrown and
    not caught. *)
Inductive completion (A : Type) : Type :=
| Normal (value : A)
| Throw (e : JSError).

Arguments Normal {A} value.
Arguments Throw {A} e.

(** *** Lexical helpers of the JSON grammar *)

(** JSON white space: TAB, LF, CR, SP. *)
Definition is_json_ws (c : code_unit) : bool :=
  (c =? 9) || (c =? 10) || (c =? 13) || (c =? 32).

Fixpoint skip_ws (s : jsstring) : jsstring :=
  match s with
  | [] => []
  | c :: r => if is_json_ws c then skip_ws r else s
  end.

Fixpoint strip_prefix (p s : jsstring) : option jsstring :=
  match p, s with
  | [], _ => Some s
  | x :: p', y :: s' => if x =? y then strip_prefix p' s' else None
  | _ :: _, [] => None
  end.

Definition hex_value (c : code_unit) : option N :=
  if (48 <=? c) && (c <=? 57) then Some (c - 48)
  else if (97 <=? c) && (c <=? 102) then Some (c - 87)
  else if (65 <=? c) && (c <=? 70) then Some (c - 55)
  else None.

(** The code unit of [\uXXXX] from its four hexadecimal digits. *)
Definition hex4 (h1 h2 h3 h4 : code_unit) : option code_unit :=
  match hex_value h1, hex_value h2, hex_value h3, hex_value h4 with
  | Some a, Some b, Some c, Some d => Some (4096 * a + 256 * b + 16 * c + d)
  | _, _, _, _ => None
  end.

(** The code unit a single-character escape stands for; after the
    backslash comes a quote (34), a backslash (92), a slash (47) or one
    of the letters b, f, n, r, t. *)
Definition simple_escape (e : code_unit) : option code_unit :=
  if e =? 34 then Some 34
  else if e =? 92 then Some 92
  else if e =? 47 then Some 47
  else if e =? 98 then Some 8
  else if e =? 102 then Some 12
  else if e =? 110 then Some 10
  else if e =? 114 then Some 13
  else if e =? 116 then Some 9
  else None.

(** The characters of a JSON string after its opening quote, up to and
    including the closing quote: the string denoted and the text left. *)
Fixpoint parse_string_chars (s : jsstring) : option (jsstring * jsstring) :=
  match s with
  | [] => None
  | c :: r =>
    if c =? 34 then Some ([], r)
    else if c =? 92 then
      match r with
      | [] => None
      | e :: r1 =>
        if e =? 117 then
          match r1 with
          | h1 :: h2 :: h3 :: h4 :: r2 =>
            match hex4 h1 h2 h3 h4 with
            | Some u =>
              match parse_string_chars r2 with
              | Some (str, rest) => Some (u :: str, rest)
              | None => None
              end
            | None => None
            end
          | _ => None
          end
        else
          match simple_escape e with
          | Some u =>
            match parse_string_chars r1 with
            | Some (str, rest) => Some (u :: str, rest)
            | None => None
            end
          | None => None
          end
      end
    else if c <? 32 then None
    else
      match parse_string_chars r with
      | Some (str, rest) => Some (c :: str, rest)
      | None => None
      end
  end.

(** The decimal digit a code unit shows, as the constructor of
    [Decimal.uint] that prepends it. *)
Definition digit_of (c : code_unit) : option (Decimal.uint -> Decimal.uint) :=
  if c =? 48 then Some Decimal.D0
  else if c =? 49 then Some Decimal.D1
  else if c =? 50 then Some Decimal.D2
  else if c =? 51 then Some Decimal.D3
  else if c =? 52 then Some Decimal.D4
  else if c =? 53 then Some Decimal.D5
  else if c =? 54 then Some Decimal.D6
  else if c =? 55 then Some Decimal.D7
  else if c =? 56 then Some Decimal.D8
  else if c =? 57 then Some Decimal.D9
  else None.

(** The longest run of decimal digits at the head of the text. *)
Fixpoint read_digits (s : jsstring) : Decimal.uint * jsstring :=
  match s with
  | [] => (Decimal.Nil, [])
  | c :: r =>
    match digit_of c with
    | Some d => let (u, rest) := read_digits r in (d u, rest)
    | None => (Decimal.Nil, s)
    end
  end.

(** Integer part: a lone [0], or a digit from 1 to 9 and its followers. *)
Definition parse_int_part (s : jsstring) : option (Decimal.uint * jsstring) :=
  match s with
  | [] => None
  | c :: r =>
    if c =? 48 then Some (Decimal.D0 Decimal.Nil, r)
    else
      match digit_of c with
      | Some _ => Some (read_digits s)
      | None => None
      end
  end.

(** Optional fraction: a dot and at least one digit. *)
Definition parse_frac (s : jsstring) : option (Decimal.uint * jsstring) :=
  match s with
  | c :: r =>
    if c =? 46 then
      match read_digits r with
      | (Decimal.Nil, _) => None
      | (u, rest) => Some (u, rest)
      end
    else Some (Decimal.Nil, s)
  | [] => Some (Decimal.Nil, [])
  end.

(** Optional exponent: [e] or [E], an optional sign, at least one digit. *)
Definition parse_exp (s : jsstring) : option (Z * jsstring) :=
  match s with
  | c :: r =>
    if (c =? 101) || (c =? 69) then
      let (minus, r1) :=
        match r with
        | sg :: r' =>
          if sg =? 45 then (true, r')
          else if sg =? 43 then (false, r')
          else (false, r)
        | [] => (false, r)
        end in
      match read_digits r1 with
      | (Decimal.Nil, _) => None
      | (u, rest) =>
        let e := Z.of_N (N.of_uint u) in
        Some (if minus then Z.opp e else e, rest)
      end
    else Some (0%Z, s)
  | [] => Some (0%Z, [])
  end.

Definition parse_number (s : jsstring) : option (JSNumber * jsstring) :=
  let (neg, s1) :=
    match s with
    | c :: r => if c =? 45 then (true, r) else (false, s)
    | [] => (false, s)
    end in
  match parse_int_part s1 with
  | None => None
  | Some (ip, s2) =>
    match parse_frac s2 with
    | None => None
    | Some (fp, s3) =>
      match parse_exp s3 with
      | None => None
      | Some (e, s4) =>
        Some ({| negative := neg;
                 digits := N.of_uint (Decimal.app ip fp);
                 exp10 := (e - Z.of_nat (Decimal.nb_digits fp))%Z |}, s4)
      end
    end
  end.

(** *** The recursive-descent reading of a JSON value

    The three functions go down on [fuel]; [JSON_parse] gives them more
    than any text can use ([parse_value_fuel]). *)

Inductive presult (A : Type) : Type :=
| POk (value : A) (rest : jsstring)
| PSyntaxError
| POutOfFuel.

Arguments POk {A} value rest.
Arguments PSyntaxError {A}.
Arguments POutOfFuel {A}.

Fixpoint parse_value (fuel : nat) (s : jsstring) {struct fuel} : presult JSON :=
  match fuel with
  | O => POutOfFuel
  | S fuel' =>
    match skip_ws s with
    | [] => PSyntaxError
    | c :: r =>
      if c =? 123 then
        match skip_ws r with
        | [] => PSyntaxError
        | c' :: r' =>
          if c' =? 125 then POk (JObject []) r'
          else parse_members fuel' (c' :: r') []
        end
      else if c =? 91 then
        match skip_ws r with
        | [] => PSyntaxError
        | c' :: r' =>
          if c' =? 93 then POk (JArray []) r'
          else parse_elements fuel' (c' :: r') []
        end
      else if c =? 34 then
        match parse_string_chars r with
        | Some (str, rest) => POk (JString str) rest
        | None => PSyntaxError
        end
      else if c =? 116 then
        match strip_prefix (lit "rue") r with
        | Some rest => POk (JBool true) rest
        | None => PSyntaxError
        end
      else if c =? 102 then
        match strip_prefix (lit "alse") r with
        | Some rest => POk (JBool false) rest
        | None => PSyntaxError
        end
      else if c =? 110 then
        match strip_prefix (lit "ull") r with
        | Some rest => POk JNull rest
        | None => PSyntaxError
        end
      else
        match parse_number (c :: r) with
        | Some (n, rest) => POk (JNumber n) rest
        | None => PSyntaxError
        end
    end
  end

with parse_elements (fuel : nat) (s : jsstring) (acc : list JSON)
       {struct fuel} : presult JSON :=
  match fuel with
  | O => POutOfFuel
  | S fuel' =>
    match parse_value fuel' s with
    | POk v r =>
      match skip_ws r with
      | [] => PSyntaxError
      | c :: r' =>
        if c =? 44 then parse_elements fuel' r' (v :: acc)
        else if c =? 93 then POk (JArray (rev (v :: acc))) r'
        else PSyntaxError
      end
    | PSyntaxError => PSyntaxError
    | POutOfFuel => POutOfFuel
    end
  end

with parse_members (fuel : nat) (s : jsstring) (acc : list (jsstring * JSON))
       {struct fuel} : presult JSON :=
  match fuel with
  | O => POutOfFuel
  | S fuel' =>
    match skip_ws s with
    | [] => PSyntaxError
    | c :: r =>
      if c =? 34 then
        match parse_string_chars r with
        | None => PSyntaxError
        | Some (key, r1) =>
          match skip_ws r1 with
          | [] => PSyntaxError
          | c1 :: r2 =>
            if c1 =? 58 then
              match parse_value fuel' r2 with
              | POk v r3 =>
                match skip_ws r3 with
                | [] => PSyntaxError
                | c3 :: r4 =>
                  if c3 =? 44 then parse_members fuel' r4 ((key, v) :: acc)
                  else if c3 =? 125 then POk (JObject (rev ((key, v) :: acc))) r4
                  else PSyntaxError
                end
              | PSyntaxError => PSyntaxError
              | POutOfFuel => POutOfFuel
              end
            else PSyntaxError
          end
        end
      else PSyntaxError
    end
  end.

(** [JSON.parse(text)]: one value between optional white space, nothing
    after it; anything else is a [SyntaxError]. *)
Definition JSON_parse (s : jsstring) : completion JSON :=
  match parse_value (2 * List.length s + 1) s with
  | POk v rest =>
    match skip_ws rest with
    | [] => Normal v
    | _ :: _ => Throw SyntaxError
    end
  | PSyntaxError => Throw SyntaxError
  | POutOfFuel => Throw SyntaxError
  end.

(** *** [JSON.stringify] on the values the application writes *)

(** Leading (D800-DBFF) and trailing (DC00-DFFF) surrogates. *)
Definition is_lead (c : code_unit) : bool := (55296 <=? c) && (c <=? 56319).
Definition is_trail (c : code_unit) : bool := (56320 <=? c) && (c <=? 57343).

Definition hex_digit (d : N) : code_unit := if d <? 10 then 48 + d else 87 + d.

(** [UnicodeEscape]: backslash, [u] and four lower-case hexadecimal digits. *)
Definition unicode_escape (c : code_unit) : jsstring :=
  [92; 117; hex_digit (c / 4096 mod 16); hex_digit (c / 256 mod 16);
   hex_digit (c / 16 mod 16); hex_digit (c mod 16)].

(** One code point of [QuoteJSONString] that is a single code unit: the
    short escapes, then [\uXXXX] for the other control characters and for
    a surrogate without its partner, the code unit itself otherwise. *)
Definition quote_code_unit (c : code_unit) : jsstring :=
  if c =? 8 then [92; 98]
  else if c =? 9 then [92; 116]
  else if c =? 10 then [92; 110]
  else if c =? 12 then [92; 102]
  else if c =? 13 then [92; 114]
  else if c =? 34 then [92; 34]
  else if c =? 92 then [92; 92]
  else if (c <? 32) || is_lead c || is_trail c then unicode_escape c
  else [c].

(** The code points of the string in turn: a leading surrogate followed
    by a trailing one is a pair and is written as it is. *)
Fixpoint quote_chars (s : jsstring) : jsstring :=
  match s with
  | [] => []
  | c :: r =>
    if is_lead c then
      match r with
      | d :: r2 =>
        if is_trail d then c :: d :: quote_chars r2
        else quote_code_unit c ++ quote_chars r
      | [] => quote_code_unit c
      end
    else quote_code_unit c ++ quote_chars r
  end.

Definition QuoteJSONString (s : jsstring) : jsstring :=
  34 :: quote_chars s ++ [34].

Fixpoint uint_chars (u : Decimal.uint) : jsstring :=
  match u with
  | Decimal.Nil => []
  | Decimal.D0 u' => 48 :: uint_chars u'
  | Decimal.D1 u' => 49 :: uint_chars u'
  | Decimal.D2 u' => 50 :: uint_chars u'
  | Decimal.D3 u' => 51 :: uint_chars u'
  | Decimal.D4 u' => 52 :: uint_chars u'
  | Decimal.D5 u' => 53 :: uint_chars u'
  | Decimal.D6 u' => 54 :: uint_chars u'
  | Decimal.D7 u' => 55 :: uint_chars u'
  | Decimal.D8 u' => 56 :: uint_chars u'
  | Decimal.D9 u' => 57 :: uint_chars u'
  end.

(** The integers that are Numbers with nothing lost: magnitude below
    [2^53].  The results of [Date.now()] are among them. *)
Definition plain_number (z : Z) : Prop := (Z.abs z < 2 ^ 53)%Z.

(** [Number::toString] of a [plain_number]: a minus sign when negative,
    then the decimal digits of the integer.  (For a larger Number the
    built-in prints the shortest digits that read back as the same
    double; the model is not meant for those.) *)
Definition Number_toString (z : Z) : jsstring :=
  (if (z <? 0)%Z then [45] else []) ++ uint_chars (N.to_uint (Z.abs_N z)).

Fixpoint join_commas (parts : list jsstring) : jsstring :=
  match parts with
  | [] => []
  | p :: ps =>
    match ps with
    | [] => p
    | _ :: _ => p ++ 44 :: join_commas ps
    end
  end.

(** One property of [SerializeJSONObject]: the quoted key, a colon, the
    value's text. *)
Definition member_text (key : string) (value : jsstring) : jsstring :=
  QuoteJSONString (lit key) ++ 58 :: value.

Definition bool_text (b : bool) : jsstring :=
  if b then lit "true" else lit "false".

(** ** The data model *)

Record Todo : Type := mkTodo {
  id : jsstring;
  text : jsstring;
  completed : bool;
  createdAt : Z
}.

Inductive FilterType : Type := FAll | FPending | FCompleted.

(** [JSON.stringify] of one [Todo], its properties in creation order. *)
Definition stringify_todo (t : Todo) : jsstring :=
  123 :: join_commas
           [member_text "id" (QuoteJSONString (id t));
            member_text "text" (QuoteJSONString (text t));
            member_text "completed" (bool_text (completed t));
            member_text "createdAt" (Number_toString (createdAt t))]
      ++ [125].

(** [JSON.stringify(todos)] *)
Definition JSON_stringify (todos : list Todo) : jsstring :=
  91 :: join_commas (List.map stringify_todo todos) ++ [93].

(** The JSON value of a collection. *)
Definition number_of_Z (z : Z) : JSNumber :=
  {| negative := (z <? 0)%Z; digits := Z.abs_N z; exp10 := 0%Z |}.

Definition todo_to_json (t : Todo) : JSON :=
  JObject [(lit "id", JString (id t));
           (lit "text", JString (text t));
           (lit "completed", JBool (completed t));
           (lit "createdAt", JNumber (number_of_Z (createdAt t)))].

Definition todos_to_json (todos : list Todo) : JSON :=
  JArray (List.map todo_to_json todos).

(** Reading a value as a [Todo[]].  The typed state stands for the value
    the code holds only when nothing of that value is lost in a [Todo]
    and [JSON.stringify] writes it as [stringify_todo] does: the object
    has the four members [id], [text], [completed], [createdAt], in this
    order and no other, two strings, a boolean and a number.  The number
    must denote an integer of magnitude below [2^53] exactly, the range
    in which [JSON.parse] rounds nothing; minus zero is left out. *)
Definition number_to_Z (n : JSNumber) : option Z :=
  let magnitude : option N :=
    match exp10 n with
    | Zneg p =>
      let d := 10 ^ Npos p in
      if digits n mod d =? 0 then Some (digits n / d) else None
    | e => Some (digits n * 10 ^ Z.to_N e)
    end in
  match magnitude with
  | Some m =>
    if m <? 2 ^ 53 then
      if negative n then
        if m =? 0 then None else Some (Z.opp (Z.of_N m))
      else Some (Z.of_N m)
    else None
  | None => None
  end.

Definition todo_of_json (v : JSON) : option Todo :=
  match v with
  | JObject [(k1, JString i); (k2, JString t); (k3, JBool c); (k4, JNumber n)] =>
    if jsstring_eqb k1 (lit "id") && jsstring_eqb k2 (lit "text")
       && jsstring_eqb k3 (lit "completed") && jsstring_eqb k4 (lit "createdAt")
    then
      match number_to_Z n with
      | Some z => Some (mkTodo i t c z)
      | None => None
      end
    else None
  | _ => None
  end.

Fixpoint all_todos (l : list JSON) : option (list Todo) :=
  match l with
  | [] => Some []
  | v :: r =>
    match todo_of_json v, all_todos r with
    | Some t, Some ts => Some (t :: ts)
    | _, _ => None
    end
  end.

Definition todos_of_json (v : JSON) : option (list Todo) :=
  match v with
  | JArray l => all_todos l
  | _ => None
  end.

(** ** The persistence adapter *)

(** The [useState] initialiser: [localStorage.getItem('todos')] is
    [null] ([None]) or the stored string; [saved ? JSON.parse(saved) : []]
    takes the second branch for [null] and for the empty string. *)
Definition load (saved : option jsstring) : completion JSON :=
  match saved with
  | None => Normal (JArray [])
  | Some s => if truthy s then JSON_parse s else Normal (JArray [])
  end.

(** The value [localStorage.setItem('todos', ...)] receives. *)
Definition save (todos : list Todo) : jsstring := JSON_stringify todos.
(** ** The task store *)

(** [todos.filter(t => !t.completed)] and [todos.filter(t => t.completed)] *)
Definition pendingOf (todos : list Todo) : list Todo :=
  List.filter (fun t => negb (completed t)) todos.

Definition completedOf (todos : list Todo) : list Todo :=
  List.filter (fun t => completed t) todos.

(** [filteredTodos], the memoised view. *)
Definition filteredTodos (todos : list Todo) (filter : FilterType) : list Todo :=
  match filter with
  | FPending => pendingOf todos
  | FCompleted => completedOf todos
  | FAll => todos
  end.

(** The object literal built in [addTodo]. *)
Definition newTodo (uuid : jsstring) (inputValue : jsstring) (now : Z) : Todo :=
  {| id := uuid; text := trim inputValue; completed := false; createdAt := now |}.

(** [{ ...todo, completed: !todo.completed }] *)
Definition flip (todo : Todo) : Todo :=
  {| id := id todo; text := text todo;
     completed := negb (completed todo); createdAt := createdAt todo |}.

(** The updater of [toggleTodo]: [prev.map(todo => todo.id === id ? ... : todo)] *)
Definition toggleTodo (i : jsstring) (prev : list Todo) : list Todo :=
  List.map (fun todo => if jsstring_eqb (id todo) i then flip todo else todo) prev.

(** The updater of [deleteTodo]: [prev.filter(todo => todo.id !== id)] *)
Definition deleteTodo (i : jsstring) (prev : list Todo) : list Todo :=
  List.filter (fun todo => negb (jsstring_eqb (id todo) i)) prev.

(** The updater of the footer button: [prev.filter(t => !t.completed)] *)
Definition clearCompleted (prev : list Todo) : list Todo :=
  List.filter (fun t => negb (completed t)) prev.

Module Stats.
Record t : Type := mk { total : nat; pending : nat; completed : nat }.
End Stats.

Definition stats (todos : list Todo) : Stats.t :=
  {| Stats.total := List.length todos;
     Stats.pending := List.length (pendingOf todos);
     Stats.completed := List.length (completedOf todos) |}.

(** ** The component

    The three pieces of [useState] state, the handlers as functions from
    the state to the next one, and the [useEffect] that follows a render
    in which [todos] is a new array. *)

Record AppState : Type := mkApp {
  todos : list Todo;
  inputValue : jsstring;
  filter : FilterType
}.

(** What a handler leaves behind: the next state, and whether it called
    [setTodos].  Every updater passed to [setTodos] builds a new array
    (spread, [map], [filter]), so the dependency [[todos]] of the effect
    has changed exactly when [setTodos] was called. *)
Record Update : Type := mkUpdate {
  next : AppState;
  todosSet : bool
}.

Definition setTodos (f : list Todo -> list Todo) (st : AppState) : AppState :=
  {| todos := f (todos st); inputValue := inputValue st; filter := filter st |}.

Definition setInputValue (v : jsstring) (st : AppState) : AppState :=
  {| todos := todos st; inputValue := v; filter := filter st |}.

Definition setFilter (f : FilterType) (st : AppState) : AppState :=
  {| todos := todos st; inputValue := inputValue st; filter := f |}.

(** [addTodo]: [uuid] and [now] are what [crypto.randomUUID()] and
    [Date.now()] answer when the handler reaches them. *)
Definition addTodo (uuid : jsstring) (now : Z) (st : AppState) : Update :=
  if negb (truthy (trim (inputValue st))) then
    {| next := st; todosSet := false |}
  else
    {| next := setInputValue []
                 (setTodos (fun prev => newTodo uuid (inputValue st) now :: prev) st);
       todosSet := true |}.

(** The events of the page.  The toggle and delete buttons exist for the
    tasks on display and the clear button while the collection is not
    empty; the handlers are modelled for every id and every state. *)
Inductive Event : Type :=
| Change (value : jsstring)
| Submit (uuid : jsstring) (now : Z)
| ToggleClick (i : jsstring)
| DeleteClick (i : jsstring)
| ClearClick
| FilterClick (f : FilterType).

Definition handle (e : Event) (st : AppState) : Update :=
  match e with
  | Change v => {| next := setInputValue v st; todosSet := false |}
  | Submit uuid now => addTodo uuid now st
  | ToggleClick i => {| next := setTodos (toggleTodo i) st; todosSet := true |}
  | DeleteClick i => {| next := setTodos (deleteTodo i) st; todosSet := true |}
  | ClearClick => {| next := setTodos clearCompleted st; todosSet := true |}
  | FilterClick f => {| next := setFilter f st; todosSet := false |}
  end.

(** The component together with the slot of [localStorage] it uses:
    [stored] is the value under the key [todos], [written] the values
    handed to [setItem] so far, the latest first. *)
Record World : Type := mkWorld {
  app : AppState;
  stored : option jsstring;
  written : list jsstring
}.

(** The effect: [localStorage.setItem('todos', JSON.stringify(todos))]. *)
Definition persist (st : AppState) (written : list jsstring) : World :=
  {| app := st;
     stored := Some (save (todos st));
     written := save (todos st) :: written |}.

Definition dispatch (e : Event) (w : World) : World :=
  let u := handle e (app w) in
  if todosSet u then persist (next u) (written w)
  else {| app := next u; stored := stored w; written := written w |}.

(** The first render: the initialiser runs, and the effect after it.
    [Ready] is the component mounted on a typed collection, [Aborted] the
    exception of [JSON.parse] leaving the initialiser.  With a stored
    value that parses and is not read as a [Todo[]] the code goes on, the
    parsed value being its state; the typed model has no state for it and
    answers [IllTyped] with that value, about which nothing is stated. *)
Inductive Boot : Type :=
| Ready (w : World)
| Aborted (e : JSError)
| IllTyped (v : JSON).

Definition mount (saved : option jsstring) : Boot :=
  match load saved with
  | Throw e => Aborted e
  | Normal v =>
    match todos_of_json v with
    | Some l => Ready (persist {| todos := l; inputValue := []; filter := FAll |} [])
    | None => IllTyped v
    end
  end.

(** ** The operations of the task store *)

Inductive Op : Type :=
| Add (rawText uuid : jsstring) (now : Z)
| Toggle (i : jsstring)
| DeleteOne (i : jsstring)
| ClearCompleted.

(** [add(rawText)] is the text typed into the input, then the submit. *)
Definition events_of (o : Op) : list Event :=
  match o with
  | Add rawText uuid now => [Change rawText; Submit uuid now]
  | Toggle i => [ToggleClick i]
  | DeleteOne i => [DeleteClick i]
  | ClearCompleted => [ClearClick]
  end.

Definition apply_op (o : Op) (w : World) : World :=
  fold_left (fun w' e => dispatch e w') (events_of o) w.

Definition run (ops : list Op) (w : World) : World :=
  fold_left (fun w' o => apply_op o w') ops w.

(** The worlds after each operation, in turn. *)
Fixpoint trace (ops : list Op) (w : World) : list World :=
  match ops with
  | [] => []
  | o :: ops' => apply_op o w :: trace ops' (apply_op o w)
  end.

(** The collection after an operation, from the collection before. *)
Definition op_todos (o : Op) (prev : list Todo) : list Todo :=
  match o with
  | Add rawText uuid now =>
    if truthy (trim rawText) then newTodo uuid rawText now :: prev else prev
  | Toggle i => toggleTodo i prev
  | DeleteOne i => deleteTodo i prev
  | ClearCompleted => clearCompleted prev
  end.

(** The ids of a collection, and the ids generated so far being new. *)
Definition ids (l : list Todo) : list jsstring := List.map id l.

Fixpoint fresh_ids (ops : list Op) (prev : list Todo) : Prop :=
  match ops with
  | [] => True
  | o :: ops' =>
    match o with
    | Add rawText uuid _ =>
      (truthy (trim rawText) = true -> ~ In uuid (ids prev))
    | _ => True
    end /\ fresh_ids ops' (op_todos o prev)
  end.

(** ** Examples used below *)

Definition emptyWorld : World :=
  {| app := {| todos := []; inputValue := []; filter := FAll |};
     stored := None;
     written := [] |}.

(** Two tasks under one id. *)
Definition twins : list Todo :=
  [ {| id := lit "a"; text := lit "x"; completed := false; createdAt := 1 |};
    {| id := lit "a"; text := lit "y"; completed := true; createdAt := 2 |} ].

Definition milk : Todo :=
  {| id := lit "b"; text := lit "Buy milk"; completed := false;
     createdAt := 1700000000000 |}.

(** A state is reachable when some stored value mounts the component
    and some operations lead from there to it. *)
Definition reachable (w : World) : Prop :=
  exists saved w0 ops, mount saved = Ready w0 /\ w = run ops w0.

Definition wf_todo (t : Todo) : Prop :=
  wf_string (id t) /\ wf_string (text t) /\ plain_number (createdAt t).

(** ** Predicates used in the statements below *)

(** The result of reading the rest of a string once [c] was read. *)
Definition consumed (c : code_unit) (r : option (jsstring * jsstring)) :
  option (jsstring * jsstring) :=
  match r with
  | Some (str, rest) => Some (c :: str, rest)
  | None => None
  end.

(** The text does not go on with a digit. *)
Definition not_digit_next (s : jsstring) : Prop :=
  match s with
  | [] => True
  | c :: _ => digit_of c = None
  end.

(** The text does not go on with a digit, a dot or an exponent mark. *)
Definition number_end (s : jsstring) : Prop :=
  match s with
  | [] => True
  | c :: _ => digit_of c = None /\ c <> 46 /\ c <> 101 /\ c <> 69
  end.

(** A minus sign or a digit. *)
Definition number_start (c : code_unit) : Prop := c = 45 \/ 48 <= c <= 57.

(** A comma or a closing brace. *)
Definition separator (c : code_unit) : Prop := c = 44 \/ c = 125.

(** A successful reading leaves less text than it was given. *)
Definition shortens (res : presult JSON) (s : jsstring) : Prop :=
  match res with
  | POk _ rest => (List.length rest < List.length s)%nat
  | _ => True
  end.

(** ** Sessions, and what stays of a task *)

(** The events of a session, one after the other. *)
Definition play (es : list Event) (w : World) : World :=
  fold_left (fun w' e => dispatch e w') es w.

(** The [disabled] attribute of the submit button: [!inputValue.trim()]. *)
Definition submitDisabled (st : AppState) : bool :=
  negb (truthy (trim (inputValue st))).




(** Only white space. *)
Definition all_space (s : jsstring) : bool := forallb is_js_space s.

(** Neither the first nor the last code unit is white space. *)
Definition edges_clean (s : jsstring) : Prop :=
  (forall c r, s = c :: r -> is_js_space c = false)
  /\ (forall c r, rev s = c :: r -> is_js_space c = false).

(** The fields of a task that no handler writes after its creation. *)
Definition core (t : Todo) : jsstring * jsstring * Z :=
  (id t, text t, createdAt t).

(** The tasks the adds of a run create, the first created first. *)
Fixpoint added (ops : list Op) : list Todo :=
  match ops with
  | [] => []
  | Add rawText uuid now :: ops' =>
    if truthy (trim rawText) then newTodo uuid rawText now :: added ops'
    else added ops'
  | _ :: ops' => added ops'
  end.

(** [l1] is [l2] with some elements left out, the others in their order. *)
Inductive subseq {A : Type} : list A -> list A -> Prop :=
| subseq_nil : subseq [] []
| subseq_skip (x : A) (l1 l2 : list A) : subseq l1 l2 -> subseq l1 (x :: l2)
| subseq_keep (x : A) (l1 l2 : list A) : subseq l1 l2 -> subseq (x :: l1) (x :: l2).

(** A task with a text as [addTodo] makes it. *)
Definition tidy (t : Todo) : Prop :=
  text t <> [] /\ edges_clean (text t).

(** An event of the input field or of the filter buttons. *)
Definition passive (e : Event) : Prop :=
  match e with
  | Change _ | FilterClick _ => True
  | _ => False
  end.

(** The two conditions of the JSX: the list is rendered when
    [filteredTodos.length > 0] (the message "Nenhuma tarefa encontrada."
    otherwise), the footer with the clear button when [todos.length > 0]. *)
Definition showsList (todos : list Todo) (filter : FilterType) : bool :=
  (0 <? List.length (filteredTodos todos filter))%nat.

Definition showsFooter (todos : list Todo) : bool :=
  (0 <? List.length todos)%nat.





(** Two identifiers of the form [crypto.randomUUID()] answers, a task
    under the first and the session that has it in store. *)
Definition uuid1 : jsstring := lit "123e4567-e89b-42d3-a456-426614174000".
Definition uuid2 : jsstring := lit "9b2e7c1a-5f3d-4e8a-b6c0-0d1f2a3b4c5d".

Definition errand : Todo :=
  {| id := uuid1; text := lit "Pay rent"; completed := false;
     createdAt := 1700000000000 |}.

Definition session : World :=
  persist {| todos := [errand]; inputValue := []; filter := FAll |} [].

(** * Properties *)

(** ** Strings *)

Lemma jsstring_eqb_eq (a b : jsstring) : jsstring_eqb a b = true <-> a = b.
Proof.
  revert b; induction a as [|x a IH]; intros [|y b]; simpl; split;
    try congruence; try reflexivity.
  - intros H. apply andb_true_iff in H as [Hx Hr].
    apply N.eqb_eq in Hx. apply IH in Hr. congruence.
  - intros H. injection H as -> ->. rewrite N.eqb_refl. simpl.
    now apply IH.
Qed.

Lemma jsstring_eqb_neq (a b : jsstring) : jsstring_eqb a b = false <-> a <> b.
Proof.
  split.
  - intros H E. apply jsstring_eqb_eq in E. congruence.
  - intros H. destruct (jsstring_eqb a b) eqn:E; [|reflexivity].
    apply jsstring_eqb_eq in E. contradiction.
Qed.

Lemma jsstring_eqb_refl (s : jsstring) : jsstring_eqb s s = true.
Proof. now apply jsstring_eqb_eq. Qed.

Lemma truthy_nonempty (s : jsstring) : truthy s = true <-> s <> [].
Proof. destruct s; simpl; split; congruence. Qed.

Lemma truthy_empty (s : jsstring) : truthy s = false <-> s = [].
Proof. destruct s; simpl; split; congruence. Qed.

(** ** The updaters *)

Lemma flip_involutive (t : Todo) : flip (flip t) = t.
Proof. destruct t as [i x c d]. unfold flip. simpl. now rewrite negb_involutive. Qed.

Lemma filter_length_partition {A : Type} (p : A -> bool) (l : list A) :
  (List.length (List.filter (fun x => negb (p x)) l)
   + List.length (List.filter p l) = List.length l)%nat.
Proof.
  induction l as [|x l IH]; simpl; [reflexivity|].
  destruct (p x); simpl; lia.
Qed.

Lemma stats_partition (l : list Todo) :
  (Stats.pending (stats l) + Stats.completed (stats l) = Stats.total (stats l))%nat.
Proof. unfold stats, pendingOf, completedOf. simpl. apply filter_length_partition. Qed.

Lemma filter_idempotent {A : Type} (p : A -> bool) (l : list A) :
  List.filter p (List.filter p l) = List.filter p l.
Proof.
  induction l as [|x l IH]; simpl; [reflexivity|].
  destruct (p x) eqn:E; simpl; [rewrite E|]; congruence.
Qed.

(** ** Events and operations *)

Lemma addTodo_blank (uuid : jsstring) (now : Z) (st : AppState) :
  trim (inputValue st) = [] ->
  addTodo uuid now st = {| next := st; todosSet := false |}.
Proof. intros H. unfold addTodo. now rewrite H. Qed.

Lemma addTodo_text (uuid : jsstring) (now : Z) (st : AppState) :
  trim (inputValue st) <> [] ->
  addTodo uuid now st =
  {| next := {| todos := newTodo uuid (inputValue st) now :: todos st;
                inputValue := [];
                filter := filter st |};
     todosSet := true |}.
Proof.
  intros H. unfold addTodo. apply truthy_nonempty in H. now rewrite H.
Qed.

Lemma apply_op_todos (o : Op) (w : World) :
  todos (app (apply_op o w)) = op_todos o (todos (app w)).
Proof.
  destruct o as [raw uuid now|i|i|]; unfold apply_op, dispatch; simpl;
    try reflexivity.
  unfold addTodo; simpl. destruct (truthy (trim raw)); reflexivity.
Qed.

Lemma run_cons (o : Op) (ops : list Op) (w : World) :
  run (o :: ops) w = run ops (apply_op o w).
Proof. reflexivity. Qed.

Lemma run_todos (ops : list Op) (w1 w2 : World) :
  todos (app w1) = todos (app w2) ->
  todos (app (run ops w1)) = todos (app (run ops w2)).
Proof.
  revert w1 w2; induction ops as [|o ops IH]; intros w1 w2 H; [exact H|].
  rewrite !run_cons. apply IH. rewrite !apply_op_todos. now rewrite H.
Qed.

(** ** Unique ids *)

Lemma ids_toggleTodo (i : jsstring) (l : list Todo) : ids (toggleTodo i l) = ids l.
Proof.
  unfold ids, toggleTodo. rewrite map_map. apply map_ext.
  intros t. destruct (jsstring_eqb (id t) i); reflexivity.
Qed.

Lemma NoDup_ids_filter (p : Todo -> bool) (l : list Todo) :
  NoDup (ids l) -> NoDup (ids (List.filter p l)).
Proof.
  induction l as [|t l IH]; simpl; intros H; [constructor|].
  inversion H as [|? ? Hnin Hnd]; subst.
  destruct (p t); simpl; [|now apply IH].
  constructor; [|now apply IH].
  intros Hin. apply Hnin. unfold ids in *.
  apply in_map_iff in Hin as (t' & E & Hin).
  apply filter_In in Hin as [Hin _].
  apply in_map_iff. now exists t'.
Qed.

Lemma op_todos_NoDup (o : Op) (l : list Todo) :
  NoDup (ids l) ->
  match o with
  | Add rawText uuid _ => truthy (trim rawText) = true -> ~ In uuid (ids l)
  | _ => True
  end ->
  NoDup (ids (op_todos o l)).
Proof.
  intros Hnd Hfresh. destruct o as [raw uuid now|i|i|]; simpl.
  - destruct (truthy (trim raw)); [|exact Hnd].
    simpl. constructor; [now apply Hfresh | exact Hnd].
  - now rewrite ids_toggleTodo.
  - now apply NoDup_ids_filter.
  - now apply NoDup_ids_filter.
Qed.

(** ** Quoting and reading strings *)

(** The four digits of [UnicodeEscape] read back as the code unit. *)
Lemma hex_value_digit (d : N) : d < 16 -> hex_value (hex_digit d) = Some d.
Proof.
  intros H.
  assert (E : d = 0 \/ d = 1 \/ d = 2 \/ d = 3 \/ d = 4 \/ d = 5 \/ d = 6 \/ d = 7
          \/ d = 8 \/ d = 9 \/ d = 10 \/ d = 11 \/ d = 12 \/ d = 13 \/ d = 14
          \/ d = 15) by lia.
  repeat (destruct E as [E|E]; [subst d; reflexivity|]). subst d; reflexivity.
Qed.

Lemma hex4_escape (c : code_unit) :
  c < 65536 ->
  hex4 (hex_digit (c / 4096 mod 16)) (hex_digit (c / 256 mod 16))
       (hex_digit (c / 16 mod 16)) (hex_digit (c mod 16)) = Some c.
Proof.
  intros H. unfold hex4.
  rewrite !hex_value_digit by (apply N.mod_lt; discriminate).
  f_equal.
  replace (c / 256) with (c / 16 / 16) by (rewrite N.Div0.div_div; reflexivity).
  replace (c / 4096) with (c / 16 / 16 / 16) by (rewrite !N.Div0.div_div; reflexivity).
  pose proof (N.div_mod c 16) as H1.
  pose proof (N.div_mod (c / 16) 16) as H2.
  pose proof (N.div_mod (c / 16 / 16) 16) as H3.
  pose proof (N.div_mod (c / 16 / 16 / 16) 16) as H4.
  assert (H5 : c / 16 / 16 / 16 / 16 = 0).
  { rewrite !N.Div0.div_div. apply N.div_small. exact H. }
  rewrite H5 in H4.
  lia.
Qed.

Lemma parse_string_chars_literal (c : code_unit) (tail : jsstring) :
  c <> 34 -> c <> 92 -> 32 <= c ->
  parse_string_chars (c :: tail) = consumed c (parse_string_chars tail).
Proof.
  intros H1 H2 H3. simpl.
  apply N.eqb_neq in H1, H2. rewrite H1, H2.
  assert (E : (c <? 32) = false) by (apply N.ltb_ge; exact H3).
  rewrite E. reflexivity.
Qed.

Lemma parse_string_chars_u (h1 h2 h3 h4 : code_unit) (tail : jsstring) :
  parse_string_chars (92 :: 117 :: h1 :: h2 :: h3 :: h4 :: tail)
  = match hex4 h1 h2 h3 h4 with
    | Some u => consumed u (parse_string_chars tail)
    | None => None
    end.
Proof. reflexivity. Qed.

Lemma parse_string_chars_unicode (c : code_unit) (tail : jsstring) :
  c < 65536 ->
  parse_string_chars (unicode_escape c ++ tail)
  = consumed c (parse_string_chars tail).
Proof.
  intros H. unfold unicode_escape.
  rewrite <- !List.app_comm_cons, List.app_nil_l, parse_string_chars_u.
  rewrite hex4_escape by exact H. reflexivity.
Qed.

(** Whatever [QuoteJSONString] writes for one code unit is read as that
    code unit. *)
Lemma parse_string_chars_quoted (c : code_unit) (tail : jsstring) :
  c < 65536 ->
  parse_string_chars (quote_code_unit c ++ tail)
  = consumed c (parse_string_chars tail).
Proof.
  intros H. unfold quote_code_unit.
  repeat match goal with
  | |- context [if ?x =? ?k then _ else _] =>
      destruct (N.eqb_spec x k); [subst; reflexivity|]
  end.
  destruct ((c <? 32) || is_lead c || is_trail c) eqn:E.
  - now apply parse_string_chars_unicode.
  - apply orb_false_iff in E as [E _]. apply orb_false_iff in E as [E _].
    apply N.ltb_ge in E.
    now apply parse_string_chars_literal.
Qed.

(** A surrogate pair written as it is is read as it is. *)
Lemma parse_string_chars_pair (c d : code_unit) (tail : jsstring) :
  is_lead c = true -> is_trail d = true ->
  parse_string_chars (c :: d :: tail)
  = consumed c (consumed d (parse_string_chars tail)).
Proof.
  unfold is_lead, is_trail. intros Hc Hd.
  apply andb_true_iff in Hc as [Hc _]. apply andb_true_iff in Hd as [Hd _].
  apply N.leb_le in Hc, Hd.
  rewrite !parse_string_chars_literal by lia. reflexivity.
Qed.

(** Reading a quoted string gives the string back.  The induction is on
    a bound of the length, a pair taking two code units at once. *)
Lemma parse_quote_chars_upto (n : nat) :
  forall (s tail : jsstring),
    (List.length s <= n)%nat -> wf_string s ->
    parse_string_chars (quote_chars s ++ 34 :: tail) = Some (s, tail).
Proof.
  induction n as [|n IH]; intros s tail Hlen Hwf.
  - destruct s; [reflexivity | simpl in Hlen; lia].
  - destruct s as [|c r]; [reflexivity|].
    inversion Hwf as [|? ? Hc Hr]; subst.
    simpl in Hlen.
    assert (Hone : parse_string_chars ((quote_code_unit c ++ quote_chars r) ++ 34 :: tail)
                   = Some (c :: r, tail)).
    { rewrite <- List.app_assoc, parse_string_chars_quoted by exact Hc.
      rewrite IH by (trivial; lia). reflexivity. }
    simpl quote_chars.
    destruct (is_lead c) eqn:Elead; [|exact Hone].
    destruct r as [|d r2];
      [simpl in Hone; rewrite List.app_nil_r in Hone; exact Hone|].
    destruct (is_trail d) eqn:Etrail; [|exact Hone].
    inversion Hr as [|? ? Hd Hr2]; subst.
    rewrite <- !List.app_comm_cons, parse_string_chars_pair by assumption.
    rewrite IH by (trivial; simpl in Hlen; lia). reflexivity.
Qed.

Lemma parse_quote_chars (s tail : jsstring) :
  wf_string s ->
  parse_string_chars (quote_chars s ++ 34 :: tail) = Some (s, tail).
Proof. intros H. now apply (parse_quote_chars_upto (List.length s)). Qed.

(** ** Printing and reading numbers *)

Lemma read_digits_uint_chars (u : Decimal.uint) (rest : jsstring) :
  not_digit_next rest ->
  read_digits (uint_chars u ++ rest) = (u, rest).
Proof.
  intros H. induction u; simpl; try (rewrite IHu; reflexivity).
  destruct rest as [|c r]; [reflexivity|]. simpl in *. now rewrite H.
Qed.

(** The numeral of a positive number starts with a digit from 1 to 9. *)
Lemma pos_to_uint_head (p : positive) :
  match Pos.to_uint p with
  | Decimal.Nil | Decimal.D0 _ => False
  | _ => True
  end.
Proof.
  pose proof (DecimalPos.Unsigned.to_of (Pos.to_uint p)) as E.
  rewrite DecimalPos.Unsigned.of_to in E. simpl in E.
  pose proof (DecimalPos.Unsigned.to_uint_nonzero p) as Hz.
  pose proof (DecimalFacts.nzhead_nonzero (Pos.to_uint p)) as Hh.
  unfold Decimal.unorm in E.
  destruct (Decimal.nzhead (Pos.to_uint p)) eqn:En;
    try (rewrite E; exact I).
  - congruence.
  - exfalso. eapply Hh. reflexivity.
Qed.

Lemma parse_int_part_to_uint (n : N) (rest : jsstring) :
  not_digit_next rest ->
  parse_int_part (uint_chars (N.to_uint n) ++ rest) = Some (N.to_uint n, rest).
Proof.
  intros H. destruct n as [|p]; [reflexivity|].
  simpl N.to_uint. pose proof (pos_to_uint_head p) as Hp.
  pose proof (read_digits_uint_chars (Pos.to_uint p) rest H) as Hr.
  destruct (Pos.to_uint p); try contradiction;
    simpl in *; rewrite Hr; reflexivity.
Qed.

Lemma uint_chars_head (n : N) :
  exists c r, uint_chars (N.to_uint n) = c :: r /\ 48 <= c <= 57.
Proof.
  destruct n as [|p]; [exists 48, []; split; [reflexivity | lia]|].
  simpl N.to_uint. pose proof (pos_to_uint_head p) as Hp.
  destruct (Pos.to_uint p); try contradiction; simpl;
    eexists; eexists; (split; [reflexivity | lia]).
Qed.

Lemma Number_toString_head (z : Z) (rest : jsstring) :
  exists c r, Number_toString z ++ rest = c :: r /\ number_start c.
Proof.
  unfold Number_toString, number_start. destruct (z <? 0)%Z.
  - exists 45. eexists. split; [reflexivity | now left].
  - destruct (uint_chars_head (Z.abs_N z)) as (c & r & E & Hc).
    rewrite E. exists c, (r ++ rest). split; [reflexivity | now right].
Qed.

Lemma parse_frac_none (rest : jsstring) :
  number_end rest -> parse_frac rest = Some (Decimal.Nil, rest).
Proof.
  destruct rest as [|c r]; [reflexivity|]. intros (_ & H & _). simpl.
  apply N.eqb_neq in H. now rewrite H.
Qed.

Lemma parse_exp_none (rest : jsstring) :
  number_end rest -> parse_exp rest = Some (0%Z, rest).
Proof.
  destruct rest as [|c r]; [reflexivity|]. intros (_ & _ & H1 & H2). simpl.
  apply N.eqb_neq in H1, H2. now rewrite H1, H2.
Qed.

Lemma number_end_not_digit (rest : jsstring) :
  number_end rest -> not_digit_next rest.
Proof. destruct rest; [trivial|]. now intros (H & _). Qed.

Lemma parse_number_digits (neg : bool) (n : N) (rest : jsstring) :
  number_end rest ->
  match parse_int_part (uint_chars (N.to_uint n) ++ rest) with
  | None => None
  | Some (ip, s2) =>
    match parse_frac s2 with
    | None => None
    | Some (fp, s3) =>
      match parse_exp s3 with
      | None => None
      | Some (e, s4) =>
        Some ({| negative := neg;
                 digits := N.of_uint (Decimal.app ip fp);
                 exp10 := (e - Z.of_nat (Decimal.nb_digits fp))%Z |}, s4)
      end
    end
  end = Some ({| negative := neg; digits := n; exp10 := 0%Z |}, rest).
Proof.
  intros H.
  rewrite parse_int_part_to_uint by now apply number_end_not_digit.
  rewrite parse_frac_none, parse_exp_none by exact H.
  rewrite DecimalFacts.app_nil_r, DecimalN.Unsigned.of_to. reflexivity.
Qed.

(** The numeral [Number::toString] writes is read as the same integer. *)
Lemma parse_number_toString (z : Z) (rest : jsstring) :
  number_end rest ->
  parse_number (Number_toString z ++ rest) = Some (number_of_Z z, rest).
Proof.
  intros H. unfold Number_toString, number_of_Z, parse_number.
  destruct (z <? 0)%Z.
  - simpl. now apply parse_number_digits.
  - destruct (uint_chars_head (Z.abs_N z)) as (c & r & E & Hc).
    pose proof (parse_number_digits false (Z.abs_N z) rest H) as P.
    rewrite E in *. simpl in *.
    destruct (N.eqb_spec c 45) as [->|_]; [lia|]. exact P.
Qed.

Lemma parse_value_number_start (fuel : nat) (c : code_unit) (r : jsstring) :
  number_start c ->
  parse_value (S fuel) (c :: r)
  = match parse_number (c :: r) with
    | Some (n, rest) => POk (JNumber n) rest
    | None => PSyntaxError
    end.
Proof.
  intros H. unfold number_start in H. simpl.
  assert (W : is_json_ws c = false).
  { unfold is_json_ws.
    repeat match goal with
    | |- context [?x =? ?k] => destruct (N.eqb_spec x k); [lia|]
    end. reflexivity. }
  rewrite W.
  repeat match goal with
  | |- context [if ?x =? ?k then _ else _] =>
      destruct (N.eqb_spec x k); [lia|]
  end.
  reflexivity.
Qed.

Lemma parse_value_number (fuel : nat) (z : Z) (rest : jsstring) :
  number_end rest ->
  parse_value (S fuel) (Number_toString z ++ rest)
  = POk (JNumber (number_of_Z z)) rest.
Proof.
  intros H.
  destruct (Number_toString_head z rest) as (c & r & E & Hc).
  pose proof (parse_number_toString z rest H) as P.
  rewrite E in *. rewrite parse_value_number_start by exact Hc.
  now rewrite P.
Qed.

(** ** Reading what [JSON.stringify] wrote *)

Lemma QuoteJSONString_app (s tail : jsstring) :
  QuoteJSONString s ++ tail = 34 :: quote_chars s ++ 34 :: tail.
Proof.
  unfold QuoteJSONString. rewrite <- List.app_comm_cons, <- List.app_assoc.
  reflexivity.
Qed.

Lemma parse_value_string (fuel : nat) (s tail : jsstring) :
  wf_string s ->
  parse_value (S fuel) (QuoteJSONString s ++ tail) = POk (JString s) tail.
Proof.
  intros H. rewrite QuoteJSONString_app.
  change (parse_value (S fuel) (34 :: quote_chars s ++ 34 :: tail))
    with (match parse_string_chars (quote_chars s ++ 34 :: tail) with
          | Some (str, rest) => POk (JString str) rest
          | None => PSyntaxError
          end).
  now rewrite parse_quote_chars.
Qed.

Lemma parse_value_bool (fuel : nat) (b : bool) (tail : jsstring) :
  parse_value (S fuel) (bool_text b ++ tail) = POk (JBool b) tail.
Proof. destruct b; reflexivity. Qed.

(** One member of an object: the quoted key, the colon, a value that is
    read up to the separator, then either the next member or the end. *)
Lemma parse_members_step (fuel : nat) (key vtext : jsstring) (v : JSON)
      (c : code_unit) (rest : jsstring) (acc : list (jsstring * JSON)) :
  wf_string key -> separator c ->
  parse_value fuel (vtext ++ c :: rest) = POk v (c :: rest) ->
  parse_members (S fuel) (QuoteJSONString key ++ 58 :: vtext ++ c :: rest) acc
  = if c =? 44 then parse_members fuel rest ((key, v) :: acc)
    else POk (JObject (rev ((key, v) :: acc))) rest.
Proof.
  intros Hkey Hc Hv. rewrite QuoteJSONString_app.
  change (parse_members (S fuel) (34 :: ?r) acc)
    with (match parse_string_chars r with
          | None => PSyntaxError
          | Some (key, r1) =>
            match skip_ws r1 with
            | [] => PSyntaxError
            | c1 :: r2 =>
              if c1 =? 58 then
                match parse_value fuel r2 with
                | POk v r3 =>
                  match skip_ws r3 with
                  | [] => PSyntaxError
                  | c3 :: r4 =>
                    if c3 =? 44 then parse_members fuel r4 ((key, v) :: acc)
                    else if c3 =? 125 then POk (JObject (rev ((key, v) :: acc))) r4
                    else PSyntaxError
                  end
                | PSyntaxError => PSyntaxError
                | POutOfFuel => POutOfFuel
                end
              else PSyntaxError
            end
          end).
  rewrite parse_quote_chars by exact Hkey.
  change (skip_ws (58 :: ?r)) with (58 :: r). cbv beta iota.
  change (58 =? 58) with true. cbv iota.
  rewrite Hv.
  destruct Hc as [-> | ->]; reflexivity.
Qed.

Lemma wf_lit_id : wf_string (lit "id").
Proof. repeat constructor. Qed.
Lemma wf_lit_text : wf_string (lit "text").
Proof. repeat constructor. Qed.
Lemma wf_lit_completed : wf_string (lit "completed").
Proof. repeat constructor. Qed.
Lemma wf_lit_createdAt : wf_string (lit "createdAt").
Proof. repeat constructor. Qed.

Lemma number_end_brace (tail : jsstring) : number_end (125 :: tail).
Proof. repeat split; discriminate. Qed.

(** The text of a task, member by member. *)
Lemma stringify_todo_app (t : Todo) (tail : jsstring) :
  stringify_todo t ++ tail
  = 123 :: QuoteJSONString (lit "id") ++ 58 :: QuoteJSONString (id t) ++ 44 ::
           QuoteJSONString (lit "text") ++ 58 :: QuoteJSONString (text t) ++ 44 ::
           QuoteJSONString (lit "completed") ++ 58 :: bool_text (completed t) ++ 44 ::
           QuoteJSONString (lit "createdAt") ++ 58 :: Number_toString (createdAt t) ++
           125 :: tail.
Proof.
  unfold stringify_todo, member_text. cbn [join_commas].
  rewrite <- !List.app_comm_cons. f_equal.
  repeat (rewrite <- List.app_assoc; rewrite <- ?List.app_comm_cons).
  reflexivity.
Qed.

Lemma parse_value_object_start (fuel : nat) (key rest : jsstring) :
  parse_value (S fuel) (123 :: QuoteJSONString key ++ rest)
  = parse_members fuel (QuoteJSONString key ++ rest) [].
Proof. reflexivity. Qed.

(** The text of a task is read as its JSON value; six units of fuel do. *)
Lemma parse_value_todo (fuel : nat) (t : Todo) (tail : jsstring) :
  wf_todo t ->
  parse_value (6 + fuel) (stringify_todo t ++ tail) = POk (todo_to_json t) tail.
Proof.
  intros (Hid & Htext & _).
  rewrite stringify_todo_app.
  change (6 + fuel)%nat with (S (S (S (S (S (S fuel)))))).
  rewrite parse_value_object_start.
  rewrite (parse_members_step _ _ _ (JString (id t)));
    [| exact wf_lit_id | now left | now apply parse_value_string].
  change (44 =? 44) with true. cbv iota.
  rewrite (parse_members_step _ _ _ (JString (text t)));
    [| exact wf_lit_text | now left | now apply parse_value_string].
  change (44 =? 44) with true. cbv iota.
  rewrite (parse_members_step _ _ _ (JBool (completed t)));
    [| exact wf_lit_completed | now left | now apply parse_value_bool].
  change (44 =? 44) with true. cbv iota.
  rewrite (parse_members_step _ _ _ (JNumber (number_of_Z (createdAt t))));
    [| exact wf_lit_createdAt | now right
     | apply parse_value_number, number_end_brace].
  reflexivity.
Qed.

Lemma parse_elements_step (fuel : nat) (vtext : jsstring) (v : JSON)
      (c : code_unit) (rest : jsstring) (acc : list JSON) :
  c = 44 \/ c = 93 ->
  parse_value fuel (vtext ++ c :: rest) = POk v (c :: rest) ->
  parse_elements (S fuel) (vtext ++ c :: rest) acc
  = if c =? 44 then parse_elements fuel rest (v :: acc)
    else POk (JArray (rev (v :: acc))) rest.
Proof.
  intros Hc Hv. cbn [parse_elements]. rewrite Hv.
  destruct Hc as [-> | ->]; reflexivity.
Qed.

(** The elements of the array, one unit of fuel more for each. *)
Lemma parse_elements_todos (l : list Todo) :
  forall (t : Todo) (fuel : nat) (acc : list JSON) (tail : jsstring),
    Forall wf_todo (t :: l) ->
    parse_elements (7 + List.length l + fuel)
      (join_commas (List.map stringify_todo (t :: l)) ++ 93 :: tail) acc
    = POk (JArray (rev acc ++ List.map todo_to_json (t :: l))) tail.
Proof.
  induction l as [|t' l IH]; intros t fuel acc tail Hwf;
    inversion Hwf as [|? ? Ht Hl]; subst.
  - cbn [List.map join_commas List.length].
    change (7 + 0 + fuel)%nat with (S (6 + fuel)).
    rewrite (parse_elements_step _ _ (todo_to_json t));
      [reflexivity | now right | now apply parse_value_todo].
  - change (join_commas (List.map stringify_todo (t :: t' :: l)))
      with (stringify_todo t ++ 44 :: join_commas (List.map stringify_todo (t' :: l))).
    rewrite <- List.app_assoc, <- List.app_comm_cons.
    change (7 + List.length (t' :: l) + fuel)%nat
      with (S (6 + (S (List.length l + fuel)))).
    rewrite (parse_elements_step _ _ (todo_to_json t));
      [| now left | now apply parse_value_todo].
    change (44 =? 44) with true. cbv iota.
    change (6 + S (List.length l + fuel))%nat with (7 + List.length l + fuel)%nat.
    rewrite IH by exact Hl.
    cbn [rev List.map]. rewrite <- List.app_assoc. reflexivity.
Qed.

Lemma stringify_todo_length (t : Todo) : (2 <= List.length (stringify_todo t))%nat.
Proof.
  unfold stringify_todo. cbn [List.length]. rewrite List.length_app.
  cbn [List.length]. lia.
Qed.

Lemma join_commas_length (l : list Todo) :
  (2 * List.length l <= List.length (join_commas (List.map stringify_todo l)))%nat.
Proof.
  induction l as [|t l IH]; [simpl; lia|].
  pose proof (stringify_todo_length t) as Ht.
  destruct l as [|t' l]; [simpl in *; lia|].
  change (join_commas (List.map stringify_todo (t :: t' :: l)))
    with (stringify_todo t ++ 44 :: join_commas (List.map stringify_todo (t' :: l))).
  rewrite List.length_app. cbn [List.length] in *. lia.
Qed.

Lemma parse_value_array_start (fuel : nat) (t : Todo) (rest : jsstring) :
  parse_value (S fuel) (91 :: stringify_todo t ++ rest)
  = parse_elements fuel (stringify_todo t ++ rest) [].
Proof. reflexivity. Qed.

(** [JSON.parse(JSON.stringify(C))] is the value of [C]. *)
Theorem JSON_parse_stringify (C : list Todo) :
  Forall wf_todo C -> JSON_parse (JSON_stringify C) = Normal (todos_to_json C).
Proof.
  intros Hwf. destruct C as [|t l]; [reflexivity|].
  unfold JSON_parse.
  pose proof (join_commas_length (t :: l)) as Hlen.
  assert (E : JSON_stringify (t :: l)
              = 91 :: join_commas (List.map stringify_todo (t :: l)) ++ 93 :: [])
    by reflexivity.
  rewrite E. clear E.
  set (body := join_commas (List.map stringify_todo (t :: l))) in *.
  set (txt := 91 :: body ++ [93]).
  assert (F : exists fuel,
             (2 * @List.length code_unit txt + 1
              = S (7 + List.length l + fuel))%nat).
  { exists (2 * List.length txt - 7 - List.length l)%nat.
    subst txt. unfold jsstring, code_unit in *.
    cbn [List.length] in *. rewrite !List.length_app.
    cbn [List.length]. lia. }
  destruct F as [fuel ->]. subst txt.
  assert (S : parse_value (S (7 + List.length l + fuel)) (91 :: body ++ [93])
              = parse_elements (7 + List.length l + fuel) (body ++ [93]) []).
  { subst body. destruct l as [|t' l].
    - apply parse_value_array_start.
    - change (join_commas (List.map stringify_todo (t :: t' :: l)))
        with (stringify_todo t ++ 44 :: join_commas (List.map stringify_todo (t' :: l))).
      rewrite <- List.app_assoc. apply parse_value_array_start. }
  rewrite S. subst body. rewrite parse_elements_todos by exact Hwf.
  reflexivity.
Qed.

(** ** The reader always ends, and within its fuel *)

Lemma skip_ws_length (s : jsstring) :
  (List.length (skip_ws s) <= List.length s)%nat.
Proof.
  induction s as [|c r IH]; simpl; [lia|].
  destruct (is_json_ws c); simpl; lia.
Qed.

Lemma skip_ws_cons (s : jsstring) (c : code_unit) (r : jsstring) :
  skip_ws s = c :: r -> (List.length r < List.length s)%nat.
Proof.
  intros H. pose proof (skip_ws_length s) as L. rewrite H in L.
  simpl in L. lia.
Qed.

Lemma strip_prefix_length (p s rest : jsstring) :
  strip_prefix p s = Some rest -> (List.length rest <= List.length s)%nat.
Proof.
  revert s; induction p as [|x p IH]; intros [|y s] H; simpl in *;
    try discriminate; try (injection H as <-; simpl; lia).
  destruct (x =? y); [|discriminate]. apply IH in H. lia.
Qed.

Lemma read_digits_length (s : jsstring) :
  (List.length (snd (read_digits s)) <= List.length s)%nat.
Proof.
  induction s as [|c r IH]; simpl; [lia|].
  destruct (digit_of c); simpl; [|lia].
  destruct (read_digits r); simpl in *; lia.
Qed.

Lemma parse_string_chars_length_upto (n : nat) :
  forall s str rest,
    (List.length s <= n)%nat ->
    parse_string_chars s = Some (str, rest) ->
    (List.length rest < List.length s)%nat.
Proof.
  induction n as [|n IH]; intros s str rest Hn H.
  - destruct s; [discriminate | simpl in Hn; lia].
  - destruct s as [|c r]; [discriminate|]. simpl in Hn, H.
    destruct (c =? 34); [injection H as _ <-; simpl; lia|].
    destruct (c =? 92).
    + destruct r as [|e r1]; [discriminate|].
      destruct (e =? 117).
      * destruct r1 as [|h1 [|h2 [|h3 [|h4 r2]]]]; try discriminate.
        destruct (hex4 h1 h2 h3 h4); [|discriminate].
        destruct (parse_string_chars r2) as [[str' rest']|] eqn:E;
          [|discriminate].
        injection H as _ <-. apply IH in E; simpl in *; lia.
      * destruct (simple_escape e); [|discriminate].
        destruct (parse_string_chars r1) as [[str' rest']|] eqn:E;
          [|discriminate].
        injection H as _ <-. apply IH in E; simpl in *; lia.
    + destruct (c <? 32); [discriminate|].
      destruct (parse_string_chars r) as [[str' rest']|] eqn:E;
        [|discriminate].
      injection H as _ <-. apply IH in E; simpl in *; lia.
Qed.

Lemma parse_string_chars_length (s str rest : jsstring) :
  parse_string_chars s = Some (str, rest) ->
  (List.length rest < List.length s)%nat.
Proof. apply (parse_string_chars_length_upto (List.length s)). lia. Qed.

Lemma parse_int_part_length (s : jsstring) (u : Decimal.uint) (rest : jsstring) :
  parse_int_part s = Some (u, rest) -> (List.length rest < List.length s)%nat.
Proof.
  destruct s as [|c r]; [discriminate|]. unfold parse_int_part.
  destruct (c =? 48); [intros H; injection H as _ <-; simpl; lia|].
  destruct (digit_of c) eqn:D; [|discriminate].
  intros H. injection H as H. simpl in H. rewrite D in H.
  pose proof (read_digits_length r) as L.
  destruct (read_digits r) as [u' rest']. injection H as _ <-.
  simpl in *. lia.
Qed.

Lemma parse_frac_length (s : jsstring) (u : Decimal.uint) (rest : jsstring) :
  parse_frac s = Some (u, rest) -> (List.length rest <= List.length s)%nat.
Proof.
  destruct s as [|c r]; simpl; [intros H; injection H as _ <-; simpl; lia|].
  destruct (c =? 46); [|intros H; injection H as _ <-; simpl; lia].
  pose proof (read_digits_length r) as L.
  destruct (read_digits r) as [u' rest']. simpl in L.
  destruct u'; try discriminate; intros H; injection H as _ <-; lia.
Qed.

Lemma parse_exp_length (s : jsstring) (e : Z) (rest : jsstring) :
  parse_exp s = Some (e, rest) -> (List.length rest <= List.length s)%nat.
Proof.
  destruct s as [|c r]; simpl; [intros H; injection H as _ <-; simpl; lia|].
  destruct ((c =? 101) || (c =? 69)); [|intros H; injection H as _ <-; simpl; lia].
  assert (L : forall r1, (List.length r1 <= List.length r)%nat ->
    match read_digits r1 with
    | (Decimal.Nil, _) => None
    | (u, rest0) =>
      Some (if true then Z.opp (Z.of_N (N.of_uint u)) else Z.of_N (N.of_uint u), rest0)
    end = Some (e, rest) \/
    match read_digits r1 with
    | (Decimal.Nil, _) => None
    | (u, rest0) =>
      Some (if false then Z.opp (Z.of_N (N.of_uint u)) else Z.of_N (N.of_uint u), rest0)
    end = Some (e, rest) ->
    (List.length rest <= S (List.length r))%nat).
  { intros r1 Hr1 H. pose proof (read_digits_length r1) as L.
    destruct (read_digits r1) as [u' rest']. simpl in L.
    destruct u'; destruct H as [H|H]; try discriminate;
      injection H as _ <-; lia. }
  destruct r as [|sg r'].
  - intros H. apply (L []); [simpl; lia | now right].
  - destruct (sg =? 45); [intros H; apply (L r'); [simpl; lia | now left]|].
    destruct (sg =? 43); intros H.
    + apply (L r'); [simpl; lia | now right].
    + apply (L (sg :: r')); [simpl; lia | now right].
Qed.

Lemma parse_number_length (s : jsstring) (n : JSNumber) (rest : jsstring) :
  parse_number s = Some (n, rest) -> (List.length rest < List.length s)%nat.
Proof.
  unfold parse_number.
  set (p := match s with
            | [] => (false, s)
            | c :: r => if c =? 45 then (true, r) else (false, s)
            end).
  assert (Hp : (List.length (snd p) <= List.length s)%nat).
  { subst p. destruct s as [|c r]; simpl; [lia|].
    destruct (c =? 45); simpl; lia. }
  destruct p as [neg s1]. simpl in Hp.
  destruct (parse_int_part s1) as [[ip s2]|] eqn:E1; [|discriminate].
  destruct (parse_frac s2) as [[fp s3]|] eqn:E2; [|discriminate].
  destruct (parse_exp s3) as [[e s4]|] eqn:E3; [|discriminate].
  intros H. injection H as _ <-.
  apply parse_int_part_length in E1. apply parse_frac_length in E2.
  apply parse_exp_length in E3. lia.
Qed.

(** Every successful reading consumes at least one code unit. *)
Lemma parse_progress (fuel : nat) :
  (forall s, shortens (parse_value fuel s) s)
  /\ (forall s acc, shortens (parse_elements fuel s acc) s)
  /\ (forall s acc, shortens (parse_members fuel s acc) s).
Proof.
  induction fuel as [|fuel (IHv & IHe & IHm)]; [repeat split|].
  repeat split.
  - intros s. cbn [parse_value].
    destruct (skip_ws s) as [|c r] eqn:Es; [exact I|].
    apply skip_ws_cons in Es.
    destruct (c =? 123).
    { destruct (skip_ws r) as [|c' r'] eqn:Er; [exact I|].
      apply skip_ws_cons in Er.
      destruct (c' =? 125); [simpl; lia|].
      specialize (IHm (c' :: r') []).
      destruct (parse_members fuel (c' :: r') []); simpl in *; trivial; lia. }
    destruct (c =? 91).
    { destruct (skip_ws r) as [|c' r'] eqn:Er; [exact I|].
      apply skip_ws_cons in Er.
      destruct (c' =? 93); [simpl; lia|].
      specialize (IHe (c' :: r') []).
      destruct (parse_elements fuel (c' :: r') []); simpl in *; trivial; lia. }
    destruct (c =? 34).
    { destruct (parse_string_chars r) as [[str rest]|] eqn:E; [|exact I].
      apply parse_string_chars_length in E. simpl. lia. }
    destruct (c =? 116).
    { destruct (strip_prefix (lit "rue") r) eqn:E; [|exact I].
      apply strip_prefix_length in E. simpl. lia. }
    destruct (c =? 102).
    { destruct (strip_prefix (lit "alse") r) eqn:E; [|exact I].
      apply strip_prefix_length in E. simpl. lia. }
    destruct (c =? 110).
    { destruct (strip_prefix (lit "ull") r) eqn:E; [|exact I].
      apply strip_prefix_length in E. simpl. lia. }
    destruct (parse_number (c :: r)) as [[n rest]|] eqn:E; [|exact I].
    apply parse_number_length in E. simpl in *. lia.
  - intros s acc. cbn [parse_elements].
    specialize (IHv s).
    destruct (parse_value fuel s) as [v r| |]; try exact I.
    destruct (skip_ws r) as [|c r'] eqn:Er; [exact I|].
    apply skip_ws_cons in Er. simpl in IHv.
    destruct (c =? 44).
    { specialize (IHe r' (v :: acc)).
      destruct (parse_elements fuel r' (v :: acc)); simpl in *; trivial; lia. }
    destruct (c =? 93); simpl; trivial; lia.
  - intros s acc. cbn [parse_members].
    destruct (skip_ws s) as [|c r] eqn:Es; [exact I|].
    apply skip_ws_cons in Es.
    destruct (c =? 34); [|exact I].
    destruct (parse_string_chars r) as [[key r1]|] eqn:Ek; [|exact I].
    apply parse_string_chars_length in Ek.
    destruct (skip_ws r1) as [|c1 r2] eqn:E1; [exact I|].
    apply skip_ws_cons in E1.
    destruct (c1 =? 58); [|exact I].
    specialize (IHv r2).
    destruct (parse_value fuel r2) as [v r3| |]; try exact I.
    simpl in IHv.
    destruct (skip_ws r3) as [|c3 r4] eqn:E3; [exact I|].
    apply skip_ws_cons in E3.
    destruct (c3 =? 44).
    { specialize (IHm r4 ((key, v) :: acc)).
      destruct (parse_members fuel r4 ((key, v) :: acc)); simpl in *;
        trivial; lia. }
    destruct (c3 =? 125); simpl; trivial; lia.
Qed.

Lemma parse_value_shortens (fuel : nat) (s : jsstring) (v : JSON) (r : jsstring) :
  parse_value fuel s = POk v r -> (List.length r < List.length s)%nat.
Proof.
  intros H. pose proof (proj1 (parse_progress fuel) s) as P.
  now rewrite H in P.
Qed.

(** With more fuel than twice the length of the text no reading stops
    for want of it. *)
Lemma parse_fuel (fuel : nat) :
  (forall s, (2 * List.length s < fuel)%nat ->
             parse_value fuel s <> POutOfFuel)
  /\ (forall s acc, (2 * List.length s + 1 < fuel)%nat ->
                    parse_elements fuel s acc <> POutOfFuel)
  /\ (forall s acc, (2 * List.length s < fuel)%nat ->
                    parse_members fuel s acc <> POutOfFuel).
Proof.
  induction fuel as [|fuel (IHv & IHe & IHm)]; [repeat split; intros; lia|].
  repeat split.
  - intros s Hs. cbn [parse_value].
    destruct (skip_ws s) as [|c r] eqn:Es; [discriminate|].
    apply skip_ws_cons in Es.
    destruct (c =? 123).
    { destruct (skip_ws r) as [|c' r'] eqn:Er; [discriminate|].
      apply skip_ws_cons in Er.
      destruct (c' =? 125); [discriminate|].
      apply IHm. simpl. lia. }
    destruct (c =? 91).
    { destruct (skip_ws r) as [|c' r'] eqn:Er; [discriminate|].
      apply skip_ws_cons in Er.
      destruct (c' =? 93); [discriminate|].
      apply IHe. simpl. lia. }
    destruct (c =? 34);
      [destruct (parse_string_chars r) as [[? ?]|]; discriminate|].
    destruct (c =? 116);
      [destruct (strip_prefix (lit "rue") r); discriminate|].
    destruct (c =? 102);
      [destruct (strip_prefix (lit "alse") r); discriminate|].
    destruct (c =? 110);
      [destruct (strip_prefix (lit "ull") r); discriminate|].
    destruct (parse_number (c :: r)) as [[? ?]|]; discriminate.
  - intros s acc Hs. cbn [parse_elements].
    assert (Hv : parse_value fuel s <> POutOfFuel) by (apply IHv; lia).
    destruct (parse_value fuel s) as [v r| |] eqn:E;
      [|discriminate|contradiction].
    apply parse_value_shortens in E.
    destruct (skip_ws r) as [|c r'] eqn:Er; [discriminate|].
    apply skip_ws_cons in Er.
    destruct (c =? 44); [apply IHe; lia|].
    destruct (c =? 93); discriminate.
  - intros s acc Hs. cbn [parse_members].
    destruct (skip_ws s) as [|c r] eqn:Es; [discriminate|].
    apply skip_ws_cons in Es.
    destruct (c =? 34); [|discriminate].
    destruct (parse_string_chars r) as [[key r1]|] eqn:Ek; [|discriminate].
    apply parse_string_chars_length in Ek.
    destruct (skip_ws r1) as [|c1 r2] eqn:E1; [discriminate|].
    apply skip_ws_cons in E1.
    destruct (c1 =? 58); [|discriminate].
    assert (Hv : parse_value fuel r2 <> POutOfFuel) by (apply IHv; lia).
    destruct (parse_value fuel r2) as [v r3| |] eqn:E;
      [|discriminate|contradiction].
    apply parse_value_shortens in E.
    destruct (skip_ws r3) as [|c3 r4] eqn:E3; [discriminate|].
    apply skip_ws_cons in E3.
    destruct (c3 =? 44); [apply IHm; lia|].
    destruct (c3 =? 125); discriminate.
Qed.

(** The fuel [JSON_parse] hands out is never used up. *)
Lemma JSON_parse_fuel (s : jsstring) :
  parse_value (2 * List.length s + 1) s <> POutOfFuel.
Proof. apply (proj1 (parse_fuel _)). lia. Qed.

(** ** Worked examples *)

Example trim_example : trim (lit "  Buy milk ") = lit "Buy milk".
Proof. reflexivity. Qed.

Example trim_blank : trim (9 :: 160 :: 8232 :: 65279 :: lit "   ") = [].
Proof. reflexivity. Qed.

Example quote_example :
  QuoteJSONString [10; 34; 55357; 233; 55357; 56832]
  = 34 :: lit "\n" ++ [92; 34] ++ lit "\ud83d" ++ [233; 55357; 56832; 34].
Proof. reflexivity. Qed.

Example save_example :
  save [milk]
  = lit "[{" ++ QuoteJSONString (lit "id") ++ lit ":" ++ QuoteJSONString (lit "b")
    ++ lit "," ++ QuoteJSONString (lit "text") ++ lit ":"
    ++ QuoteJSONString (lit "Buy milk")
    ++ lit "," ++ QuoteJSONString (lit "completed") ++ lit ":false,"
    ++ QuoteJSONString (lit "createdAt") ++ lit ":1700000000000}]".
Proof. reflexivity. Qed.

Example parse_spaces :
  JSON_parse (lit " [ 1 , true , null, -2.50e1 ] ")
  = Normal (JArray [JNumber (mkNumber false 1 0); JBool true; JNull;
                    JNumber (mkNumber true 250 (-1))]).
Proof. reflexivity. Qed.

Example parse_rejects :
  JSON_parse (lit "[1,]") = Throw SyntaxError
  /\ JSON_parse (lit "[01]") = Throw SyntaxError
  /\ JSON_parse (lit "1.") = Throw SyntaxError
  /\ JSON_parse (lit "[1] x") = Throw SyntaxError
  /\ JSON_parse (lit "{a:1}") = Throw SyntaxError
  /\ JSON_parse (lit "nul") = Throw SyntaxError.
Proof. repeat split. Qed.

Example parse_nested :
  JSON_parse (lit "{" ++ QuoteJSONString (lit "k") ++ lit ":[[],{}]}")
  = Normal (JObject [(lit "k", JArray [JArray []; JObject []])]).
Proof. reflexivity. Qed.

(** The scenario of the specification: add A, add B, toggle A, delete B. *)
Example scenario :
  let w1 := run [Add (lit "A") (lit "1") 10; Add (lit "B") (lit "2") 20]
                emptyWorld in
  let w2 := apply_op (Toggle (lit "1")) w1 in
  let w3 := apply_op (DeleteOne (lit "2")) w2 in
  List.map text (todos (app w1)) = [lit "B"; lit "A"]
  /\ List.map text (filteredTodos (todos (app w2)) FCompleted) = [lit "A"]
  /\ List.map text (filteredTodos (todos (app w2)) FPending) = [lit "B"]
  /\ stats (todos (app w3)) = Stats.mk 1 0 1
  /\ mount (stored w3) = Ready (persist (mkApp (todos (app w3)) [] FAll) []).
Proof. repeat split. Qed.

(** ** Decoding what was written *)

Lemma number_to_Z_of_Z (z : Z) :
  plain_number z -> number_to_Z (number_of_Z z) = Some z.
Proof.
  unfold plain_number, number_to_Z, number_of_Z. intros H.
  cbn [exp10 negative digits Z.to_N].
  rewrite N.pow_0_r, N.mul_1_r.
  assert (B : (Z.abs_N z <? 2 ^ 53) = true).
  { apply N.ltb_lt. apply N2Z.inj_lt. rewrite N2Z.inj_abs_N.
    exact H. }
  rewrite B.
  destruct (Z.ltb_spec z 0) as [Hneg|Hpos].
  - destruct (N.eqb_spec (Z.abs_N z) 0) as [E|_].
    + apply (f_equal Z.of_N) in E. rewrite N2Z.inj_abs_N in E. simpl in E. lia.
    + f_equal. rewrite N2Z.inj_abs_N. lia.
  - f_equal. rewrite N2Z.inj_abs_N. lia.
Qed.

Lemma todo_of_json_to_json (t : Todo) :
  wf_todo t -> todo_of_json (todo_to_json t) = Some t.
Proof.
  intros (_ & _ & H). destruct t as [i x c z].
  unfold todo_to_json, todo_of_json. cbn [id text completed createdAt] in *.
  rewrite !jsstring_eqb_refl. cbn [andb].
  now rewrite number_to_Z_of_Z.
Qed.

Lemma todos_of_json_to_json (C : list Todo) :
  Forall wf_todo C -> todos_of_json (todos_to_json C) = Some C.
Proof.
  unfold todos_of_json, todos_to_json.
  induction 1 as [|t C Ht HC IH]; [reflexivity|].
  cbn [List.map all_todos]. now rewrite todo_of_json_to_json, IH.
Qed.

Lemma save_truthy (C : list Todo) : truthy (save C) = true.
Proof. reflexivity. Qed.

Lemma load_save (C : list Todo) :
  Forall wf_todo C -> load (Some (save C)) = Normal (todos_to_json C).
Proof.
  intros H. unfold load. rewrite save_truthy. now apply JSON_parse_stringify.
Qed.

(** ** Toggling and deleting by id *)

Lemma trace_length (ops : list Op) (w : World) :
  List.length (trace ops w) = List.length ops.
Proof.
  revert w; induction ops as [|o ops IH]; intros w; simpl;
    [reflexivity | now rewrite IH].
Qed.

Lemma toggleTodo_absent (i : jsstring) (l : list Todo) :
  ~ In i (ids l) -> toggleTodo i l = l.
Proof.
  induction l as [|t l IH]; intros H; [reflexivity|].
  simpl in *. destruct (jsstring_eqb (id t) i) eqn:E.
  - apply jsstring_eqb_eq in E. exfalso. apply H. now left.
  - f_equal. apply IH. intros Hin. apply H. now right.
Qed.

Lemma nth_error_toggleTodo (i : jsstring) (l : list Todo) (n : nat) :
  nth_error (toggleTodo i l) n
  = option_map (fun t => if jsstring_eqb (id t) i then flip t else t)
               (nth_error l n).
Proof. unfold toggleTodo. apply nth_error_map. Qed.

Lemma unique_id_position (l : list Todo) (n m : nat) (t t' : Todo) :
  NoDup (ids l) ->
  nth_error l n = Some t -> nth_error l m = Some t' -> id t = id t' -> n = m.
Proof.
  intros Hnd Hn Hm E.
  apply (proj1 (NoDup_nth_error (ids l)) Hnd).
  - unfold ids. rewrite length_map. apply nth_error_Some. congruence.
  - unfold ids. rewrite !nth_error_map, Hn, Hm. simpl. now rewrite E.
Qed.

Lemma toggleTodo_only_match (i : jsstring) (l : list Todo) (n m : nat) (t : Todo) :
  NoDup (ids l) -> nth_error l n = Some t -> id t = i -> m <> n ->
  nth_error (toggleTodo i l) m = nth_error l m.
Proof.
  intros Hnd Hn Hi Hm. rewrite nth_error_toggleTodo.
  destruct (nth_error l m) as [t'|] eqn:E; [|reflexivity]. simpl.
  destruct (jsstring_eqb (id t') i) eqn:Ei; [|reflexivity].
  apply jsstring_eqb_eq in Ei. exfalso. apply Hm.
  apply (unique_id_position l m n t' t Hnd E Hn). congruence.
Qed.

Lemma toggleTodo_involutive (i : jsstring) (l : list Todo) :
  toggleTodo i (toggleTodo i l) = l.
Proof.
  unfold toggleTodo. rewrite map_map.
  rewrite <- (map_id l) at 2. apply map_ext. intros t.
  destruct (jsstring_eqb (id t) i) eqn:E.
  - change (id (flip t)) with (id t). rewrite E. apply flip_involutive.
  - now rewrite E.
Qed.

Lemma deleteTodo_length (i : jsstring) (l : list Todo) :
  (List.length (deleteTodo i l)
   + List.length (List.filter (fun t => jsstring_eqb (id t) i) l)
   = List.length l)%nat.
Proof. apply (filter_length_partition (fun t => jsstring_eqb (id t) i)). Qed.

(** ** The claims *)

(** C1.  Whatever the collection the store starts from and whatever
    add, toggle, deleteOne and clearCompleted operations follow, after
    each of them the three counters of [stats] satisfy
    [pending + completed = total], where [total] is the size of the
    collection, [pending] the number of tasks not completed and
    [completed] the number of completed ones. *)
Theorem stats_partition_after_every_operation (w : World) (ops : list Op) :
  Forall (fun w' =>
            let s := stats (todos (app w')) in
            (Stats.pending s + Stats.completed s = Stats.total s)%nat
            /\ Stats.total s = List.length (todos (app w'))
            /\ Stats.pending s
               = List.length (List.filter (fun t => negb (completed t))
                                          (todos (app w')))
            /\ Stats.completed s
               = List.length (List.filter (fun t => completed t)
                                          (todos (app w'))))
         (trace ops w).
Proof.
  apply Forall_forall. intros w' _. cbv zeta.
  split; [apply stats_partition | repeat split].
Qed.

(** C2, counterexample.  The session mounted from the stored [errand]
    receives an add for which the generator answers the id that task
    already has: the collection then holds two tasks under one id, the
    new id is not unique. *)
Lemma add_can_repeat_an_id :
  mount (Some (save [errand])) = Ready session
  /\ trim (lit "Buy milk") <> []
  /\ List.map id (todos (app (apply_op (Add (lit "Buy milk") uuid1 1700000000001)
                                       session)))
     = [uuid1; uuid1]
  /\ ~ NoDup (ids (todos (app (apply_op (Add (lit "Buy milk") uuid1 1700000000001)
                                        session)))).
Proof.
  split; [reflexivity|]. split; [discriminate|]. split; [reflexivity|].
  intros H. inversion H as [|? ? Hnin _]; subst. apply Hnin. now left.
Qed.

(** C2, amended.  When the trimmed input is not empty, add builds the
    task whose [id] is the value the generator returned, whose [text] is
    the trimmed input, with [completed = false] and [createdAt = now],
    and puts it in front: it is the first element of the collection and
    of the [all] view, and the earlier tasks follow as they were.  The id
    is not compared with the ids in the collection: it differs from all
    of them, and the ids stay distinct, exactly when the value returned
    is not among them already. *)
Theorem add_prepends_generated_task (w : World) (rawText uuid : jsstring)
        (now : Z) :
  trim rawText <> [] ->
  let w' := apply_op (Add rawText uuid now) w in
  let task := {| id := uuid; text := trim rawText; completed := false;
                 createdAt := now |} in
  todos (app w') = task :: todos (app w)
  /\ filteredTodos (todos (app w')) FAll = task :: todos (app w)
  /\ List.hd_error (filteredTodos (todos (app w')) FAll) = Some task
  /\ List.tl (todos (app w')) = todos (app w)
  /\ (Forall (fun t => id t <> id task) (todos (app w))
      <-> ~ In uuid (ids (todos (app w))))
  /\ (NoDup (ids (todos (app w')))
      <-> ~ In uuid (ids (todos (app w))) /\ NoDup (ids (todos (app w))))
  /\ stored w' = Some (save (task :: todos (app w))).
Proof.
  intros H. cbv zeta. apply truthy_nonempty in H.
  assert (E : apply_op (Add rawText uuid now) w
              = persist {| todos := newTodo uuid rawText now :: todos (app w);
                           inputValue := [];
                           filter := filter (app w) |} (written w)).
  { unfold apply_op, dispatch. simpl. unfold addTodo. simpl. now rewrite H. }
  rewrite E. simpl. unfold newTodo.
  split; [reflexivity|]. split; [reflexivity|]. split; [reflexivity|].
  split; [reflexivity|]. split; [|split; [|reflexivity]].
  - rewrite Forall_forall. unfold ids. rewrite in_map_iff. split.
    + intros Hall (t & Et & Ht). now apply (Hall t Ht).
    + intros Hnin t Ht Et. apply Hnin. now exists t.
  - apply NoDup_cons_iff.
Qed.

Lemma add_prepends_generated_task_witness :
  trim (lit "  Buy milk ") <> []
  /\ todos (app (apply_op (Add (lit "  Buy milk ") uuid2 1700000000001) session))
     = [mkTodo uuid2 (lit "Buy milk") false 1700000000001; errand].
Proof.
  split; [discriminate|].
  apply (add_prepends_generated_task session (lit "  Buy milk ") uuid2
           1700000000001).
  discriminate.
Defined.

(** C3.  When the trimmed input is empty, add does nothing: the submit
    leaves the whole state as it was, so the collection and [total] are
    unchanged, nothing is written to storage and the stored value stays. *)
Theorem add_blank_is_noop (w : World) (rawText uuid : jsstring) (now : Z) :
  trim rawText = [] ->
  let typed := dispatch (Change rawText) w in
  let w' := apply_op (Add rawText uuid now) w in
  dispatch (Submit uuid now) typed = typed
  /\ todos (app w') = todos (app w)
  /\ stored w' = stored w
  /\ written w' = written w
  /\ Stats.total (stats (todos (app w'))) = Stats.total (stats (todos (app w))).
Proof.
  intros H. cbv zeta.
  assert (E : dispatch (Submit uuid now) (dispatch (Change rawText) w)
              = dispatch (Change rawText) w).
  { unfold dispatch at 1. cbn [handle].
    rewrite addTodo_blank by exact H. reflexivity. }
  unfold apply_op. cbn [events_of fold_left]. rewrite E.
  repeat split.
Qed.

Lemma add_blank_is_noop_witness :
  (trim [] = [] /\ trim (lit "   ") = [])
  /\ todos (app (apply_op (Add [] (lit "b") 5) (persist (mkApp [milk] [] FAll) [])))
     = [milk]
  /\ written (apply_op (Add (lit "   ") (lit "b") 5)
                       (persist (mkApp [milk] [] FAll) []))
     = [save [milk]].
Proof.
  split; [split; reflexivity|]. split.
  - apply (add_blank_is_noop (persist (mkApp [milk] [] FAll) []) [] (lit "b") 5).
    reflexivity.
  - apply (add_blank_is_noop (persist (mkApp [milk] [] FAll) []) (lit "   ")
             (lit "b") 5).
    reflexivity.
Defined.

(** C4.  toggle keeps the length and the positions.  A task whose id is
    the argument keeps its [id], [text] and [createdAt] and has its
    [completed] flag negated; a task with another id is unchanged.  With
    distinct ids that is one task flipped and every other position
    untouched.  When no task has the id, the collection is unchanged. *)
Theorem toggle_flips_in_place (i : jsstring) (l : list Todo) :
  List.length (toggleTodo i l) = List.length l
  /\ (forall n t, nth_error l n = Some t ->
        exists t', nth_error (toggleTodo i l) n = Some t'
                   /\ id t' = id t /\ text t' = text t
                   /\ createdAt t' = createdAt t
                   /\ (id t = i -> completed t' = negb (completed t))
                   /\ (id t <> i -> t' = t))
  /\ (NoDup (ids l) ->
      forall n m t, nth_error l n = Some t -> id t = i -> m <> n ->
                    nth_error (toggleTodo i l) m = nth_error l m)
  /\ (~ In i (ids l) -> toggleTodo i l = l).
Proof.
  split; [apply length_map|]. split; [|split].
  - intros n t Hn. rewrite nth_error_toggleTodo, Hn. simpl.
    destruct (jsstring_eqb (id t) i) eqn:E.
    + apply jsstring_eqb_eq in E. exists (flip t). repeat split.
      intros Hne. contradiction.
    + apply jsstring_eqb_neq in E. exists t. repeat split.
      intros He. contradiction.
  - intros Hnd n m t. now apply toggleTodo_only_match.
  - apply toggleTodo_absent.
Qed.

Lemma toggle_flips_in_place_witness :
  toggleTodo (lit "b") [milk] = [flip milk]
  /\ (~ In (lit "zz") (ids [milk]) -> toggleTodo (lit "zz") [milk] = [milk]).
Proof.
  split; [reflexivity|].
  apply (toggle_flips_in_place (lit "zz") [milk]).
Defined.

(** C5.  Two toggles of the same id in a row give back the collection:
    every task, and so every [completed] flag, is as it was before. *)
Theorem toggle_twice_restores (i : jsstring) (w : World) :
  toggleTodo i (toggleTodo i (todos (app w))) = todos (app w)
  /\ todos (app (run [Toggle i; Toggle i] w)) = todos (app w)
  /\ List.map completed (todos (app (run [Toggle i; Toggle i] w)))
     = List.map completed (todos (app w)).
Proof.
  assert (E : todos (app (run [Toggle i; Toggle i] w)) = todos (app w)).
  { rewrite !run_cons. cbn [run fold_left]. rewrite !apply_op_todos.
    apply toggleTodo_involutive. }
  split; [apply toggleTodo_involutive|]. split; [exact E | now rewrite E].
Qed.

(** C6.  clearCompleted is idempotent: applied twice it gives the
    collection it gives applied once.  It keeps exactly the tasks that
    are not completed, and in their order (it distributes over
    concatenation). *)
Theorem clearCompleted_idempotent (w : World) :
  clearCompleted (clearCompleted (todos (app w))) = clearCompleted (todos (app w))
  /\ todos (app (run [ClearCompleted; ClearCompleted] w))
     = todos (app (run [ClearCompleted] w))
  /\ (forall t, In t (clearCompleted (todos (app w)))
                <-> In t (todos (app w)) /\ completed t = false)
  /\ (forall l1 l2, clearCompleted (l1 ++ l2)
                    = clearCompleted l1 ++ clearCompleted l2).
Proof.
  split; [apply filter_idempotent|]. split.
  - rewrite !run_cons. cbn [run fold_left]. rewrite !apply_op_todos.
    apply filter_idempotent.
  - split.
    + intros t. unfold clearCompleted. rewrite filter_In.
      now rewrite negb_true_iff.
    + intros l1 l2. apply filter_app.
Qed.

(** C7.  Saving a collection and loading it back gives the same
    collection, task by task in the same order and with the four fields:
    [JSON.parse] of [JSON.stringify(C)] is the JSON value of [C], that
    value reads back as [C], and the component mounts with [C].  The
    strings are sequences of 16-bit code units and [createdAt] an
    integer of magnitude below [2^53], as every result of [Date.now()]
    is. *)
Theorem load_save_roundtrip (C : list Todo) :
  Forall wf_todo C ->
  load (Some (save C)) = Normal (todos_to_json C)
  /\ todos_of_json (todos_to_json C) = Some C
  /\ mount (Some (save C))
     = Ready (persist {| todos := C; inputValue := []; filter := FAll |} []).
Proof.
  intros H. split; [now apply load_save|].
  split; [now apply todos_of_json_to_json|].
  unfold mount. rewrite load_save by exact H.
  now rewrite todos_of_json_to_json.
Qed.

Lemma load_save_roundtrip_witness :
  Forall wf_todo [milk; flip milk]
  /\ load (Some (save [milk; flip milk]))
     = Normal (todos_to_json [milk; flip milk]).
Proof.
  assert (H : Forall wf_todo [milk; flip milk])
    by (repeat constructor).
  split; [exact H|].
  apply (load_save_roundtrip [milk; flip milk] H).
Defined.

(** C8, counterexample.  The stored text [[1]] is no array of tasks, yet
    [load] returns its value and throws nothing; and the empty string,
    which [JSON.parse] rejects, is never handed to it: [load] answers the
    empty collection. *)
Lemma load_accepts_other_shapes :
  load (Some (lit "[1]"))
  = Normal (JArray [JNumber {| negative := false; digits := 1; exp10 := 0 |}])
  /\ todos_of_json
       (JArray [JNumber {| negative := false; digits := 1; exp10 := 0 |}]) = None
  /\ JSON_parse [] = Throw SyntaxError
  /\ load (Some []) = Normal (JArray []).
Proof. repeat split. Qed.

(** C8, amended.  [load] returns the empty collection when nothing is
    stored and when the stored value is the empty string.  Any other
    stored text goes to [JSON.parse] and its outcome is the outcome of
    [load], whatever its shape: [load] throws exactly when [JSON.parse]
    throws its [SyntaxError] (which is a verdict on the text: the reader
    never stops for want of fuel), the exception is not caught and the
    component does not mount; the text written for a collection is read
    back as that collection. *)
Theorem load_parses_without_validation :
  load None = Normal (JArray [])
  /\ load (Some []) = Normal (JArray [])
  /\ (forall s, s <> [] -> load (Some s) = JSON_parse s)
  /\ (forall s, load (Some s) = Throw SyntaxError
                <-> s <> [] /\ JSON_parse s = Throw SyntaxError)
  /\ (forall s e, load (Some s) = Throw e -> mount (Some s) = Aborted e)
  /\ (forall C, Forall wf_todo C ->
                load (Some (save C)) = Normal (todos_to_json C))
  /\ (forall s, parse_value (2 * List.length s + 1) s <> POutOfFuel).
Proof.
  split; [reflexivity|]. split; [reflexivity|].
  split; [|split; [|split; [|split]]].
  - intros [|c r] H; [contradiction | reflexivity].
  - intros [|c r]; simpl; split.
    + discriminate.
    + intros [H _]. contradiction.
    + intros H. split; [discriminate | exact H].
    + intros [_ H]. exact H.
  - intros s e H. unfold mount. now rewrite H.
  - apply load_save.
  - apply JSON_parse_fuel.
Qed.

Lemma load_parses_without_validation_witness :
  lit "{" <> [] /\ load (Some (lit "{")) = Throw SyntaxError
  /\ mount (Some (lit "{")) = Aborted SyntaxError.
Proof.
  split; [discriminate|]. split.
  - apply (proj1 (proj2 (proj2 (proj2 load_parses_without_validation)))).
    split; [discriminate | reflexivity].
  - apply (proj1 (proj2 (proj2 (proj2 (proj2 load_parses_without_validation))))).
    reflexivity.
Defined.

(** C9, counterexample.  The component mounts from the stored text of
    [twins], two tasks under the id [a]: a reachable state whose ids are
    not distinct. *)
Lemma reachable_duplicate_ids :
  ~ (forall w, reachable w -> NoDup (ids (todos (app w)))).
Proof.
  intros H.
  assert (R : reachable (persist {| todos := twins; inputValue := [];
                                    filter := FAll |} [])).
  { exists (Some (save twins)), (persist {| todos := twins; inputValue := [];
                                            filter := FAll |} []), [].
    split; reflexivity. }
  apply H in R. simpl in R. inversion R as [|? ? Hnin _]; subst.
  apply Hnin. now left.
Qed.

(** C9, amended.  From a collection whose ids are distinct, and as long
    as each identifier generated for an add is not yet in the collection,
    the ids are distinct after every add, toggle, deleteOne and
    clearCompleted. *)
Theorem unique_ids_preserved (w : World) (ops : list Op) :
  NoDup (ids (todos (app w))) ->
  fresh_ids ops (todos (app w)) ->
  Forall (fun w' => NoDup (ids (todos (app w')))) (trace ops w)
  /\ NoDup (ids (todos (app (run ops w)))).
Proof.
  revert w. induction ops as [|o ops IH]; intros w Hnd Hfresh.
  - split; [constructor | exact Hnd].
  - destruct Hfresh as [Ho Hrest].
    assert (Hstep : NoDup (ids (todos (app (apply_op o w))))).
    { rewrite apply_op_todos. apply op_todos_NoDup; [exact Hnd|].
      destruct o; trivial. }
    rewrite <- apply_op_todos in Hrest.
    destruct (IH (apply_op o w) Hstep Hrest) as [Ht Hr].
    split; [constructor; assumption | exact Hr].
Qed.

Lemma unique_ids_preserved_witness :
  NoDup (ids (todos (app emptyWorld)))
  /\ fresh_ids [Add (lit "A") (lit "1") 10; Add (lit "B") (lit "2") 20;
                Toggle (lit "1"); DeleteOne (lit "2"); ClearCompleted]
               (todos (app emptyWorld))
  /\ NoDup (ids (todos (app (run [Add (lit "A") (lit "1") 10;
                                  Add (lit "B") (lit "2") 20;
                                  Toggle (lit "1"); DeleteOne (lit "2");
                                  ClearCompleted] emptyWorld)))).
Proof.
  assert (H1 : NoDup (ids (todos (app emptyWorld)))) by constructor.
  assert (H2 : fresh_ids [Add (lit "A") (lit "1") 10; Add (lit "B") (lit "2") 20;
                          Toggle (lit "1"); DeleteOne (lit "2"); ClearCompleted]
                         (todos (app emptyWorld))).
  { simpl. repeat split; trivial.
    - intros _ [].
    - intros _ [E|[]]. discriminate E. }
  split; [exact H1|]. split; [exact H2|].
  apply (unique_ids_preserved emptyWorld _ H1 H2).
Defined.

(** C10.  toggle flips every task whose id is the argument and
    deleteOne removes every such task, not only the first: at each
    position holding a matching task the toggled collection holds that
    task flipped, and the collection after deleteOne holds exactly the
    tasks of other ids, the matching ones being all gone. *)
Theorem toggle_and_delete_reach_every_match (i : jsstring) (l : list Todo) :
  (forall n t, nth_error l n = Some t -> id t = i ->
               nth_error (toggleTodo i l) n = Some (flip t))
  /\ Forall (fun t => id t <> i) (deleteTodo i l)
  /\ (forall t, In t (deleteTodo i l) <-> In t l /\ id t <> i)
  /\ (List.length (deleteTodo i l)
      + List.length (List.filter (fun t => jsstring_eqb (id t) i) l)
      = List.length l)%nat.
Proof.
  split; [|split; [|split]].
  - intros n t Hn Hi. rewrite nth_error_toggleTodo, Hn. simpl.
    apply jsstring_eqb_eq in Hi. now rewrite Hi.
  - apply Forall_forall. intros t Ht. apply filter_In in Ht as [_ Ht].
    apply negb_true_iff, jsstring_eqb_neq in Ht. exact Ht.
  - intros t. unfold deleteTodo. rewrite filter_In.
    now rewrite negb_true_iff, jsstring_eqb_neq.
  - apply deleteTodo_length.
Qed.

Lemma toggle_and_delete_reach_every_match_witness :
  (nth_error twins 0 = Some (mkTodo (lit "a") (lit "x") false 1)
   /\ nth_error twins 1 = Some (mkTodo (lit "a") (lit "y") true 2))
  /\ (nth_error (toggleTodo (lit "a") twins) 0
      = Some (mkTodo (lit "a") (lit "x") true 1)
      /\ nth_error (toggleTodo (lit "a") twins) 1
         = Some (mkTodo (lit "a") (lit "y") false 2))
  /\ deleteTodo (lit "a") twins = [].
Proof.
  split; [split; reflexivity|]. split; [split|reflexivity].
  - apply (proj1 (toggle_and_delete_reach_every_match (lit "a") twins) 0%nat
             (mkTodo (lit "a") (lit "x") false 1)); reflexivity.
  - apply (proj1 (toggle_and_delete_reach_every_match (lit "a") twins) 1%nat
             (mkTodo (lit "a") (lit "y") true 2)); reflexivity.
Defined.

(** * Further properties of the component *)

(** ** What is read from a string is made of its code units *)






















(** ** The effect keeps the storage in step *)

Lemma play_app (es1 es2 : list Event) (w : World) :
  play (es1 ++ es2) w = play es2 (play es1 w).
Proof. apply fold_left_app. Qed.






(** ** The collection stays within the data model, and a later session
    finds it again *)




Lemma Forall_filter {A : Type} (P : A -> Prop) (p : A -> bool) (l : list A) :
  Forall P l -> Forall P (List.filter p l).
Proof.
  intros H. apply Forall_forall. intros x Hx. apply filter_In in Hx as [Hx _].
  revert x Hx. now apply Forall_forall.
Qed.




(** Where the typed model stops: a stored array of another shape, the
    members of a task in another order, a member more, a [createdAt] of
    [2^53].  The component mounts from each of them; [mount] hands the
    parsed value back and follows it no further. *)
Example mount_other_shapes :
  mount (Some (lit "[1]")) = IllTyped (JArray [JNumber (mkNumber false 1 0)])
  /\ (exists v,
        mount (Some (lit "[{" ++ QuoteJSONString (lit "text") ++ lit ":"
                     ++ QuoteJSONString (lit "x") ++ lit ","
                     ++ QuoteJSONString (lit "id") ++ lit ":"
                     ++ QuoteJSONString (lit "a") ++ lit ","
                     ++ QuoteJSONString (lit "completed") ++ lit ":false,"
                     ++ QuoteJSONString (lit "createdAt") ++ lit ":1}]"))
        = IllTyped v)
  /\ (exists v,
        mount (Some (lit "[{" ++ QuoteJSONString (lit "id") ++ lit ":"
                     ++ QuoteJSONString (lit "a") ++ lit ","
                     ++ QuoteJSONString (lit "text") ++ lit ":"
                     ++ QuoteJSONString (lit "x") ++ lit ","
                     ++ QuoteJSONString (lit "completed") ++ lit ":false,"
                     ++ QuoteJSONString (lit "createdAt") ++ lit ":1,"
                     ++ QuoteJSONString (lit "note") ++ lit ":null}]"))
        = IllTyped v)
  /\ (exists v,
        mount (Some (lit "[{" ++ QuoteJSONString (lit "id") ++ lit ":"
                     ++ QuoteJSONString (lit "a") ++ lit ","
                     ++ QuoteJSONString (lit "text") ++ lit ":"
                     ++ QuoteJSONString (lit "x") ++ lit ","
                     ++ QuoteJSONString (lit "completed") ++ lit ":false,"
                     ++ QuoteJSONString (lit "createdAt")
                     ++ lit ":9007199254740992}]"))
        = IllTyped v)
  /\ mount (Some (lit " [ {" ++ QuoteJSONString (lit "id") ++ lit " : "
                  ++ QuoteJSONString (lit "a") ++ lit ","
                  ++ QuoteJSONString (lit "text") ++ lit ":"
                  ++ QuoteJSONString (lit "x") ++ lit ","
                  ++ QuoteJSONString (lit "completed") ++ lit ":true,"
                  ++ QuoteJSONString (lit "createdAt") ++ lit ":1.5e1} ] "))
     = Ready (persist (mkApp [mkTodo (lit "a") (lit "x") true 15] [] FAll) []).
Proof.
  split; [reflexivity|].
  split; [eexists; vm_compute; reflexivity|].
  split; [eexists; vm_compute; reflexivity|].
  split; [eexists; vm_compute; reflexivity|].
  vm_compute; reflexivity.
Qed.






(** ** Typing, filtering and redundant writes *)

Lemma deleteTodo_absent (i : jsstring) (l : list Todo) :
  ~ In i (ids l) -> deleteTodo i l = l.
Proof.
  induction l as [|t l IH]; intros H; [reflexivity|].
  simpl in *. destruct (jsstring_eqb (id t) i) eqn:E.
  - apply jsstring_eqb_eq in E. exfalso. apply H. now left.
  - simpl. f_equal. apply IH. intros Hin. apply H. now right.
Qed.

Lemma dispatch_passive (e : Event) (w : World) :
  passive e ->
  todos (app (dispatch e w)) = todos (app w)
  /\ stored (dispatch e w) = stored w
  /\ written (dispatch e w) = written w.
Proof. destruct e; simpl; intros H; try contradiction; repeat split. Qed.

(** X3.  Typing into the input and choosing a filter, however often,
    change neither the collection nor the stored value, and write
    nothing. *)
Theorem typing_and_filtering_write_nothing (es : list Event) (w : World) :
  Forall passive es ->
  todos (app (play es w)) = todos (app w)
  /\ stored (play es w) = stored w
  /\ written (play es w) = written w.
Proof.
  revert w. induction es as [|e es IH]; intros w H; [repeat split|].
  inversion H as [|? ? He Hes]; subst. simpl.
  destruct (dispatch_passive e w He) as (E1 & E2 & E3).
  destruct (IH (dispatch e w) Hes) as (F1 & F2 & F3).
  repeat split; congruence.
Qed.

Lemma typing_and_filtering_write_nothing_witness :
  Forall passive [Change (lit "x"); FilterClick FCompleted; Change []]
  /\ written (play [Change (lit "x"); FilterClick FCompleted; Change []]
                   (persist (mkApp [milk] [] FAll) []))
     = [save [milk]].
Proof.
  assert (H : Forall passive [Change (lit "x"); FilterClick FCompleted; Change []])
    by (repeat constructor).
  split; [exact H|].
  apply (proj2 (proj2 (typing_and_filtering_write_nothing _
                         (persist (mkApp [milk] [] FAll) []) H))).
Defined.

(** X4.  Toggling or deleting an id that no task has leaves the
    collection as it is, and still writes its text to storage once
    more. *)
Theorem absent_id_still_writes (w : World) (i : jsstring) :
  ~ In i (ids (todos (app w))) ->
  (todos (app (dispatch (ToggleClick i) w)) = todos (app w)
   /\ written (dispatch (ToggleClick i) w) = save (todos (app w)) :: written w
   /\ stored (dispatch (ToggleClick i) w) = Some (save (todos (app w))))
  /\ (todos (app (dispatch (DeleteClick i) w)) = todos (app w)
      /\ written (dispatch (DeleteClick i) w) = save (todos (app w)) :: written w
      /\ stored (dispatch (DeleteClick i) w) = Some (save (todos (app w)))).
Proof.
  intros H. unfold dispatch. simpl.
  rewrite toggleTodo_absent, deleteTodo_absent by exact H.
  repeat split.
Qed.

Lemma absent_id_still_writes_witness :
  ~ In (lit "zz") (ids (todos (app (persist (mkApp [milk] [] FAll) []))))
  /\ written (dispatch (DeleteClick (lit "zz")) (persist (mkApp [milk] [] FAll) []))
     = [save [milk]; save [milk]].
Proof.
  assert (H : ~ In (lit "zz") (ids (todos (app (persist (mkApp [milk] [] FAll) []))))).
  { intros [E|[]]. discriminate E. }
  split; [exact H|].
  apply (proj2 (absent_id_still_writes (persist (mkApp [milk] [] FAll) [])
                  (lit "zz") H)).
Defined.

(** ** The submit button *)

Lemma addTodo_disabled (uuid : jsstring) (now : Z) (st : AppState) :
  submitDisabled st = true ->
  addTodo uuid now st = {| next := st; todosSet := false |}.
Proof. unfold submitDisabled, addTodo. now intros ->. Qed.

Lemma submit_disables (uuid : jsstring) (now : Z) (w : World) :
  submitDisabled (app (dispatch (Submit uuid now) w)) = true.
Proof.
  unfold dispatch. cbn [handle]. unfold addTodo, submitDisabled.
  destruct (negb (truthy (trim (inputValue (app w))))) eqn:E; simpl.
  - exact E.
  - reflexivity.
Qed.

(** X5.  After a submit the button is disabled and a second submit
    right after it changes nothing: one text gives at most one task.
    A submit while the button is disabled does nothing, one while it is
    enabled makes the collection one longer. *)
Theorem submit_twice_adds_once (w : World) (uuid uuid' : jsstring) (now now' : Z) :
  submitDisabled (app (dispatch (Submit uuid now) w)) = true
  /\ dispatch (Submit uuid' now') (dispatch (Submit uuid now) w)
     = dispatch (Submit uuid now) w
  /\ (submitDisabled (app w) = true -> dispatch (Submit uuid now) w = w)
  /\ (submitDisabled (app w) = false ->
      List.length (todos (app (dispatch (Submit uuid now) w)))
      = S (List.length (todos (app w)))).
Proof.
  split; [apply submit_disables|]. split; [|split].
  - pose proof (submit_disables uuid now w) as D.
    set (w1 := dispatch (Submit uuid now) w) in *.
    unfold dispatch at 1. cbn [handle].
    rewrite addTodo_disabled by exact D. simpl. now destruct w1.
  - intros D. unfold dispatch. cbn [handle].
    rewrite addTodo_disabled by exact D. simpl. now destruct w.
  - intros D. unfold dispatch. cbn [handle]. unfold addTodo.
    unfold submitDisabled in D. rewrite D. reflexivity.
Qed.

Lemma submit_twice_adds_once_witness :
  submitDisabled (app (dispatch (Change (lit "A")) emptyWorld)) = false
  /\ List.length (todos (app (dispatch (Submit (lit "1") 10)
                                (dispatch (Change (lit "A")) emptyWorld))))
     = 1%nat.
Proof.
  split; [reflexivity|].
  apply (proj2 (proj2 (proj2
           (submit_twice_adds_once (dispatch (Change (lit "A")) emptyWorld)
              (lit "1") (lit "1") 10 10)))).
  reflexivity.
Defined.

(** ** What [trim] leaves *)

Lemma trimStart_split (s : jsstring) :
  exists a, s = a ++ trimStart s /\ all_space a = true.
Proof.
  induction s as [|c r (a & E & Ha)]; [now exists []|]. simpl.
  destruct (is_js_space c) eqn:Ec.
  - exists (c :: a). split; [simpl; congruence | simpl; now rewrite Ec].
  - now exists [].
Qed.

Lemma trimStart_head (s : jsstring) (c : code_unit) (r : jsstring) :
  trimStart s = c :: r -> is_js_space c = false.
Proof.
  induction s as [|x s IH]; simpl; [discriminate|].
  destruct (is_js_space x) eqn:E; [exact IH|].
  intros H. injection H as <- _. exact E.
Qed.

Lemma trimStart_nil (s : jsstring) : trimStart s = [] <-> all_space s = true.
Proof.
  induction s as [|c r IH]; simpl; [tauto|].
  destruct (is_js_space c); simpl; [exact IH|]. split; discriminate.
Qed.

Lemma all_space_rev (s : jsstring) : all_space (rev s) = all_space s.
Proof.
  unfold all_space. induction s as [|c r IH]; [reflexivity|]. simpl.
  rewrite forallb_app, IH. simpl. rewrite andb_true_r. apply andb_comm.
Qed.

Lemma all_space_app (a b : jsstring) :
  all_space (a ++ b) = all_space a && all_space b.
Proof. apply forallb_app. Qed.

Lemma trimEnd_split (s : jsstring) :
  exists b, s = trimEnd s ++ b /\ all_space b = true.
Proof.
  unfold trimEnd. destruct (trimStart_split (rev s)) as (a & E & Ha).
  exists (rev a). split; [|now rewrite all_space_rev].
  rewrite <- rev_app_distr, <- E. symmetry. apply rev_involutive.
Qed.

Lemma trim_split (s : jsstring) :
  exists a b, s = a ++ trim s ++ b /\ all_space a = true /\ all_space b = true.
Proof.
  destruct (trimStart_split s) as (a & Ea & Ha).
  destruct (trimEnd_split (trimStart s)) as (b & Eb & Hb).
  exists a, b. unfold trim. now rewrite <- Eb.
Qed.

Lemma trim_edges (s : jsstring) : edges_clean (trim s).
Proof.
  split.
  - intros c r E.
    destruct (trimEnd_split (trimStart s)) as (b & Eb & _).
    unfold trim in E. rewrite E in Eb. simpl in Eb.
    now apply (trimStart_head s c (r ++ b)).
  - intros c r E. unfold trim, trimEnd in E. rewrite rev_involutive in E.
    now apply (trimStart_head _ _ _ E).
Qed.

Lemma trim_nil (s : jsstring) : trim s = [] <-> all_space s = true.
Proof.
  split.
  - intros H. destruct (trim_split s) as (a & b & E & Ha & Hb).
    rewrite H in E. rewrite E, all_space_app, Ha. exact Hb.
  - intros H. unfold trim. apply trimStart_nil in H. now rewrite H.
Qed.

Lemma trim_fixed (s : jsstring) : edges_clean s -> trim s = s.
Proof.
  intros [Hh Hl].
  assert (S1 : trimStart s = s).
  { destruct s as [|c r]; [reflexivity|]. simpl. now rewrite (Hh c r eq_refl). }
  unfold trim, trimEnd. rewrite S1.
  destruct (rev s) as [|c r] eqn:E.
  - apply (f_equal (@rev _)) in E. rewrite rev_involutive in E. now subst.
  - simpl. rewrite (Hl c r eq_refl). rewrite <- E. apply rev_involutive.
Qed.

Lemma trim_idempotent (s : jsstring) : trim (trim s) = trim s.
Proof. apply trim_fixed, trim_edges. Qed.

(** X6.  add leaves the collection as it is exactly when the input is
    made of white space only (the empty input included); otherwise the
    collection is one task longer. *)
Theorem add_is_noop_exactly_on_blank_input (w : World) (rawText uuid : jsstring)
        (now : Z) :
  (todos (app (apply_op (Add rawText uuid now) w)) = todos (app w)
   <-> all_space rawText = true)
  /\ (all_space rawText = false ->
      List.length (todos (app (apply_op (Add rawText uuid now) w)))
      = S (List.length (todos (app w)))).
Proof.
  rewrite apply_op_todos. simpl.
  destruct (truthy (trim rawText)) eqn:E.
  - apply truthy_nonempty in E.
    assert (B : all_space rawText = false).
    { destruct (all_space rawText) eqn:B; [|reflexivity].
      apply trim_nil in B. contradiction. }
    rewrite B. split; [|reflexivity]. split; [|discriminate].
    intros H. apply (f_equal (@List.length _)) in H. simpl in H. lia.
  - apply truthy_empty, trim_nil in E. rewrite E.
    split; [tauto | discriminate].
Qed.

Lemma add_is_noop_exactly_on_blank_input_witness :
  all_space (lit " a ") = false
  /\ List.length (todos (app (apply_op (Add (lit " a ") (lit "1") 10) emptyWorld)))
     = 1%nat.
Proof.
  split; [reflexivity|].
  apply (proj2 (add_is_noop_exactly_on_blank_input emptyWorld (lit " a ")
                  (lit "1") 10)).
  reflexivity.
Defined.

(** X7.  The text of a new task is the input without its margins: the
    input is that text between two runs of white space, and the text is
    not empty, does not start or end with white space, and trimming it
    again changes nothing. *)
Theorem new_task_text_is_input_without_margins (w : World)
        (rawText uuid : jsstring) (now : Z) :
  all_space rawText = false ->
  exists t rest a b,
    todos (app (apply_op (Add rawText uuid now) w)) = t :: rest
    /\ rawText = a ++ text t ++ b
    /\ all_space a = true /\ all_space b = true
    /\ text t <> [] /\ edges_clean (text t)
    /\ trim (text t) = text t.
Proof.
  intros B. rewrite apply_op_todos. simpl.
  assert (N : trim rawText <> []).
  { intros E. apply trim_nil in E. congruence. }
  assert (T : truthy (trim rawText) = true) by now apply truthy_nonempty.
  rewrite T.
  destruct (trim_split rawText) as (a & b & E & Ha & Hb).
  exists (newTodo uuid rawText now), (todos (app w)), a, b. simpl.
  repeat split; try assumption; try apply trim_edges.
  apply trim_idempotent.
Qed.

Lemma new_task_text_is_input_without_margins_witness :
  all_space (lit "  Buy milk ") = false
  /\ exists t rest a b,
       todos (app (apply_op (Add (lit "  Buy milk ") (lit "b") 5) emptyWorld))
       = t :: rest
       /\ lit "  Buy milk " = a ++ text t ++ b
       /\ all_space a = true /\ all_space b = true
       /\ text t <> [] /\ edges_clean (text t)
       /\ trim (text t) = text t.
Proof.
  split; [reflexivity|].
  apply (new_task_text_is_input_without_margins emptyWorld (lit "  Buy milk ")
           (lit "b") 5).
  reflexivity.
Defined.

Lemma op_todos_tidy (o : Op) (l : list Todo) :
  Forall tidy l -> Forall tidy (op_todos o l).
Proof.
  intros H. destruct o as [raw uuid now|i|i|]; simpl.
  - destruct (truthy (trim raw)) eqn:E; [|exact H].
    constructor; [|exact H]. split; simpl.
    + now apply truthy_nonempty.
    + apply trim_edges.
  - unfold toggleTodo. apply Forall_map. apply Forall_forall. intros t Ht.
    assert (W : tidy t) by (revert t Ht; now apply Forall_forall).
    destruct (jsstring_eqb (id t) i); exact W.
  - now apply Forall_filter.
  - now apply Forall_filter.
Qed.

Lemma run_todos_fold (ops : list Op) (w : World) :
  todos (app (run ops w))
  = fold_left (fun l o => op_todos o l) ops (todos (app w)).
Proof.
  revert w. induction ops as [|o ops IH]; intros w; [reflexivity|].
  rewrite run_cons, IH, apply_op_todos. reflexivity.
Qed.

(** X8.  When every task has a non-empty text without white space at
    either end, add, toggle, deleteOne and clearCompleted keep it so. *)
Theorem texts_stay_tidy (w : World) (ops : list Op) :
  Forall tidy (todos (app w)) ->
  Forall tidy (todos (app (run ops w))).
Proof.
  rewrite run_todos_fold. generalize (todos (app w)).
  induction ops as [|o ops IH]; intros l H; [exact H|].
  simpl. apply IH. now apply op_todos_tidy.
Qed.

Lemma texts_stay_tidy_witness :
  Forall tidy (todos (app emptyWorld))
  /\ Forall tidy (todos (app (run [Add (lit " a b ") (lit "1") 10;
                                   Toggle (lit "1"); Add (lit "  ") (lit "2") 20]
                                  emptyWorld))).
Proof.
  assert (H : Forall tidy (todos (app emptyWorld))) by constructor.
  split; [exact H|].
  apply (texts_stay_tidy emptyWorld _ H).
Defined.

(** ** Subsequences *)

Lemma subseq_refl {A : Type} (l : list A) : subseq l l.
Proof. induction l; [constructor | apply subseq_keep; assumption]. Qed.

Lemma subseq_trans {A : Type} (l1 l2 l3 : list A) :
  subseq l1 l2 -> subseq l2 l3 -> subseq l1 l3.
Proof.
  intros H12 H23. revert l1 H12.
  induction H23 as [|x l2 l3 H IH|x l2 l3 H IH]; intros l1 H12.
  - exact H12.
  - constructor. now apply IH.
  - inversion H12; subst.
    + apply subseq_skip. now apply IH.
    + apply subseq_keep. now apply IH.
Qed.

Lemma subseq_filter {A : Type} (p : A -> bool) (l : list A) :
  subseq (List.filter p l) l.
Proof.
  induction l as [|x l IH]; simpl; [constructor|].
  destruct (p x); [apply subseq_keep | apply subseq_skip]; exact IH.
Qed.

Lemma subseq_map {A B : Type} (f : A -> B) (l1 l2 : list A) :
  subseq l1 l2 -> subseq (List.map f l1) (List.map f l2).
Proof.
  induction 1; simpl;
    [constructor | apply subseq_skip | apply subseq_keep]; assumption.
Qed.

Lemma subseq_app_l {A : Type} (p l1 l2 : list A) :
  subseq l1 l2 -> subseq (p ++ l1) (p ++ l2).
Proof. intros H. induction p; simpl; [exact H | now apply subseq_keep]. Qed.

Lemma subseq_In {A : Type} (l1 l2 : list A) (x : A) :
  subseq l1 l2 -> In x l1 -> In x l2.
Proof.
  induction 1 as [|y l1 l2 H IH|y l1 l2 H IH]; simpl; intros Hx.
  - exact Hx.
  - right. now apply IH.
  - destruct Hx as [->|Hx]; [now left | right; now apply IH].
Qed.

Lemma subseq_length {A : Type} (l1 l2 : list A) :
  subseq l1 l2 -> (List.length l1 <= List.length l2)%nat.
Proof. induction 1; simpl; lia. Qed.

(** ** No handler rewrites a task *)

Lemma core_flip (t : Todo) : core (flip t) = core t.
Proof. reflexivity. Qed.

Lemma cores_toggleTodo (i : jsstring) (l : list Todo) :
  List.map core (toggleTodo i l) = List.map core l.
Proof.
  unfold toggleTodo. rewrite map_map. apply map_ext. intros t.
  destruct (jsstring_eqb (id t) i); reflexivity.
Qed.

Lemma added_cons (o : Op) (ops : list Op) (l : list Todo) :
  subseq (List.map core (op_todos o l))
         (List.map core (rev (added [o]) ++ l))
  /\ added (o :: ops) = added [o] ++ added ops.
Proof.
  destruct o as [raw uuid now|i|i|]; simpl.
  - destruct (truthy (trim raw)); simpl; split;
      try reflexivity; apply subseq_refl.
  - split; [|reflexivity]. rewrite cores_toggleTodo. apply subseq_refl.
  - split; [|reflexivity]. apply subseq_map, subseq_filter.
  - split; [|reflexivity]. apply subseq_map, subseq_filter.
Qed.

Lemma fold_cores (ops : list Op) :
  forall l,
    subseq (List.map core (fold_left (fun l' o => op_todos o l') ops l))
           (List.map core (rev (added ops) ++ l)).
Proof.
  induction ops as [|o ops IH]; intros l; [apply subseq_refl|].
  cbn [fold_left].
  destruct (added_cons o ops l) as [Ho Ea].
  eapply subseq_trans; [apply IH|].
  rewrite Ea, rev_app_distr, <- List.app_assoc, !map_app.
  apply subseq_app_l. rewrite <- map_app. exact Ho.
Qed.

(** X9.  No operation rewrites or reorders: the collection after a run,
    read by [id], [text] and [createdAt], is a subsequence of the tasks
    the run added, the newest first, followed by the collection it
    started from.  So every task comes from the start or from an add
    with these three fields untouched, and the collection is never longer
    than both together. *)
Theorem collection_is_newest_first_survivors (w : World) (ops : list Op) :
  subseq (List.map core (todos (app (run ops w))))
         (List.map core (rev (added ops) ++ todos (app w)))
  /\ (forall t, In t (todos (app (run ops w))) ->
        exists t0, In t0 (added ops ++ todos (app w))
                   /\ id t = id t0 /\ text t = text t0
                   /\ createdAt t = createdAt t0)
  /\ (List.length (todos (app (run ops w)))
      <= List.length (added ops) + List.length (todos (app w)))%nat.
Proof.
  pose proof (fold_cores ops (todos (app w))) as S.
  rewrite <- run_todos_fold in S.
  split; [exact S|]. split.
  - intros t Ht.
    assert (Hc : In (core t) (List.map core (rev (added ops) ++ todos (app w)))).
    { apply (subseq_In _ _ _ S). now apply in_map. }
    apply in_map_iff in Hc as (t0 & E & Hin).
    exists t0. split.
    + apply in_app_or in Hin as [Hin|Hin]; apply in_or_app;
        [left; now apply in_rev | now right].
    + unfold core in E. injection E as E1 E2 E3. now repeat split.
  - apply subseq_length in S.
    rewrite !length_map, length_app, length_rev in S. exact S.
Qed.

(** ** The three views *)

Lemma filter_partition_perm {A : Type} (p : A -> bool) (l : list A) :
  Permutation (List.filter (fun x => negb (p x)) l ++ List.filter p l) l.
Proof.
  induction l as [|x l IH]; simpl; [constructor|].
  destruct (p x); simpl.
  - apply Permutation_sym, Permutation_cons_app, Permutation_sym, IH.
  - now constructor.
Qed.

(** X10.  The all view is the collection; the pending and the completed
    view together hold every task exactly once, each the tasks of its
    kind in the order of the collection, and their lengths are the two
    counters of [stats]. *)
Theorem views_split_the_collection (l : list Todo) :
  filteredTodos l FAll = l
  /\ Permutation (filteredTodos l FPending ++ filteredTodos l FCompleted) l
  /\ (forall t, In t (filteredTodos l FPending)
                <-> In t l /\ completed t = false)
  /\ (forall t, In t (filteredTodos l FCompleted)
                <-> In t l /\ completed t = true)
  /\ subseq (filteredTodos l FPending) l
  /\ subseq (filteredTodos l FCompleted) l
  /\ List.length (filteredTodos l FPending) = Stats.pending (stats l)
  /\ List.length (filteredTodos l FCompleted) = Stats.completed (stats l).
Proof.
  split; [reflexivity|]. split; [apply (filter_partition_perm completed)|].
  split; [|split; [|split; [|split]]].
  - intros t. simpl. unfold pendingOf. rewrite filter_In.
    now rewrite negb_true_iff.
  - intros t. simpl. unfold completedOf. now rewrite filter_In.
  - apply subseq_filter.
  - apply subseq_filter.
  - split; reflexivity.
Qed.

(** ** Clearing *)

Lemma filter_filter_none {A : Type} (p : A -> bool) (l : list A) :
  List.filter p (List.filter (fun x => negb (p x)) l) = [].
Proof.
  induction l as [|x l IH]; simpl; [reflexivity|].
  destruct (p x) eqn:E; simpl; [exact IH | now rewrite E].
Qed.

Lemma filter_none_keeps_all {A : Type} (p : A -> bool) (l : list A) :
  List.filter p l = [] -> List.filter (fun x => negb (p x)) l = l.
Proof.
  induction l as [|x l IH]; simpl; [reflexivity|].
  destruct (p x); simpl; [discriminate|]. intros H. f_equal. now apply IH.
Qed.

(** X11.  Clearing leaves what the pending view showed: no completed task
    remains, the pending view is the same, [total = pending] and
    [completed = 0]; with no completed task it changes nothing. *)
Theorem clearCompleted_leaves_the_pending_view (l : list Todo) :
  clearCompleted l = filteredTodos l FPending
  /\ filteredTodos (clearCompleted l) FCompleted = []
  /\ filteredTodos (clearCompleted l) FPending = filteredTodos l FPending
  /\ stats (clearCompleted l)
     = Stats.mk (Stats.pending (stats l)) (Stats.pending (stats l)) 0
  /\ (Stats.completed (stats l) = 0%nat -> clearCompleted l = l).
Proof.
  assert (P : pendingOf (clearCompleted l) = pendingOf l)
    by apply filter_idempotent.
  assert (C : completedOf (clearCompleted l) = [])
    by apply (filter_filter_none completed).
  split; [reflexivity|]. split; [exact C|]. split; [exact P|]. split.
  - unfold stats. rewrite P, C. reflexivity.
  - unfold stats. simpl. intros H. apply length_zero_iff_nil in H.
    now apply (filter_none_keeps_all completed).
Qed.

Lemma clearCompleted_leaves_the_pending_view_witness :
  Stats.completed (stats [milk]) = 0%nat /\ clearCompleted [milk] = [milk].
Proof.
  split; [reflexivity|].
  apply (proj2 (proj2 (proj2 (proj2
           (clearCompleted_leaves_the_pending_view [milk]))))).
  reflexivity.
Defined.

(** ** Counting *)

(** X12.  An add with a text counts one more task and one more pending
    task; the new task is the head of the pending view and the completed
    view is as before. *)
Theorem add_counts_one_pending (w : World) (rawText uuid : jsstring) (now : Z) :
  all_space rawText = false ->
  let s := stats (todos (app w)) in
  let s' := stats (todos (app (apply_op (Add rawText uuid now) w))) in
  Stats.total s' = S (Stats.total s)
  /\ Stats.pending s' = S (Stats.pending s)
  /\ Stats.completed s' = Stats.completed s
  /\ List.hd_error (filteredTodos (todos (app (apply_op (Add rawText uuid now) w)))
                                  FPending)
     = Some (newTodo uuid rawText now)
  /\ filteredTodos (todos (app (apply_op (Add rawText uuid now) w))) FCompleted
     = filteredTodos (todos (app w)) FCompleted.
Proof.
  intros B. cbv zeta. rewrite apply_op_todos. simpl.
  assert (T : truthy (trim rawText) = true).
  { apply truthy_nonempty. intros E. apply trim_nil in E. congruence. }
  rewrite T. repeat split.
Qed.

Lemma add_counts_one_pending_witness :
  all_space (lit "A") = false
  /\ Stats.pending (stats (todos (app (apply_op (Add (lit "A") (lit "1") 10)
                                                emptyWorld))))
     = 1%nat.
Proof.
  split; [reflexivity|].
  apply (proj1 (proj2 (add_counts_one_pending emptyWorld (lit "A") (lit "1") 10
                         eq_refl))).
Defined.

(** ** One id, one task *)

Lemma NoDup_ids_split (l1 l2 : list Todo) (t : Todo) :
  NoDup (ids (l1 ++ t :: l2)) ->
  ~ In (id t) (ids l1) /\ ~ In (id t) (ids l2).
Proof.
  unfold ids. rewrite map_app. simpl. intros H.
  apply NoDup_remove_2 in H. split; intros Hin; apply H, in_or_app; tauto.
Qed.

Lemma toggleTodo_app (i : jsstring) (l1 l2 : list Todo) :
  toggleTodo i (l1 ++ l2) = toggleTodo i l1 ++ toggleTodo i l2.
Proof. apply map_app. Qed.

Lemma deleteTodo_app (i : jsstring) (l1 l2 : list Todo) :
  deleteTodo i (l1 ++ l2) = deleteTodo i l1 ++ deleteTodo i l2.
Proof. apply filter_app. Qed.

Lemma deleteTodo_unique (l1 l2 : list Todo) (t : Todo) :
  NoDup (ids (l1 ++ t :: l2)) ->
  deleteTodo (id t) (l1 ++ t :: l2) = l1 ++ l2.
Proof.
  intros H. apply NoDup_ids_split in H as [H1 H2].
  rewrite deleteTodo_app. simpl. rewrite jsstring_eqb_refl. simpl.
  now rewrite !deleteTodo_absent.
Qed.

Lemma toggleTodo_unique (l1 l2 : list Todo) (t : Todo) :
  NoDup (ids (l1 ++ t :: l2)) ->
  toggleTodo (id t) (l1 ++ t :: l2) = l1 ++ flip t :: l2.
Proof.
  intros H. apply NoDup_ids_split in H as [H1 H2].
  rewrite toggleTodo_app. simpl. rewrite jsstring_eqb_refl.
  now rewrite !toggleTodo_absent.
Qed.

(** X13.  With distinct ids deleteOne removes the one task of that id
    and nothing else: the others stay in their order, [total] is one
    less and the id is gone. *)
Theorem delete_removes_exactly_that_task (l1 l2 : list Todo) (t : Todo) :
  NoDup (ids (l1 ++ t :: l2)) ->
  deleteTodo (id t) (l1 ++ t :: l2) = l1 ++ l2
  /\ S (Stats.total (stats (deleteTodo (id t) (l1 ++ t :: l2))))
     = Stats.total (stats (l1 ++ t :: l2))
  /\ ~ In (id t) (ids (deleteTodo (id t) (l1 ++ t :: l2))).
Proof.
  intros H. rewrite deleteTodo_unique by exact H.
  split; [reflexivity|]. split.
  - simpl. rewrite !length_app. simpl. lia.
  - apply NoDup_ids_split in H as [H1 H2]. unfold ids in *.
    rewrite map_app. intros Hin. apply in_app_or in Hin. tauto.
Qed.

Lemma delete_removes_exactly_that_task_witness :
  NoDup (ids ([milk] ++ mkTodo (lit "c") (lit "x") false 3
                          :: [mkTodo (lit "d") (lit "y") true 4]))
  /\ deleteTodo (lit "c") ([milk] ++ mkTodo (lit "c") (lit "x") false 3
                                    :: [mkTodo (lit "d") (lit "y") true 4])
     = [milk; mkTodo (lit "d") (lit "y") true 4].
Proof.
  assert (H : NoDup (ids ([milk] ++ mkTodo (lit "c") (lit "x") false 3
                                   :: [mkTodo (lit "d") (lit "y") true 4]))).
  { repeat constructor; simpl; intuition discriminate. }
  split; [exact H|].
  apply (proj1 (delete_removes_exactly_that_task [milk]
                  [mkTodo (lit "d") (lit "y") true 4]
                  (mkTodo (lit "c") (lit "x") false 3) H)).
Defined.

Lemma pendingOf_app (l1 l2 : list Todo) :
  pendingOf (l1 ++ l2) = pendingOf l1 ++ pendingOf l2.
Proof. apply filter_app. Qed.

Lemma completedOf_app (l1 l2 : list Todo) :
  completedOf (l1 ++ l2) = completedOf l1 ++ completedOf l2.
Proof. apply filter_app. Qed.

(** X14.  With distinct ids toggle replaces the one task of that id by
    its flipped copy, in place: [total] is the same, one of the counters
    [pending] and [completed] goes down by one and the other up, and the
    task changes sides between the two views. *)
Theorem toggle_moves_one_task (l1 l2 : list Todo) (t : Todo) :
  NoDup (ids (l1 ++ t :: l2)) ->
  let l := l1 ++ t :: l2 in
  let l' := toggleTodo (id t) l in
  l' = l1 ++ flip t :: l2
  /\ Stats.total (stats l') = Stats.total (stats l)
  /\ (completed t = false ->
      S (Stats.pending (stats l')) = Stats.pending (stats l)
      /\ Stats.completed (stats l') = S (Stats.completed (stats l))
      /\ filteredTodos l' FPending = pendingOf l1 ++ pendingOf l2
      /\ filteredTodos l' FCompleted
         = completedOf l1 ++ flip t :: completedOf l2)
  /\ (completed t = true ->
      Stats.pending (stats l') = S (Stats.pending (stats l))
      /\ S (Stats.completed (stats l')) = Stats.completed (stats l)
      /\ filteredTodos l' FPending = pendingOf l1 ++ flip t :: pendingOf l2
      /\ filteredTodos l' FCompleted = completedOf l1 ++ completedOf l2).
Proof.
  intros H. cbv zeta. rewrite toggleTodo_unique by exact H.
  split; [reflexivity|]. split.
  - simpl. rewrite !length_app. reflexivity.
  - unfold stats. simpl.
    rewrite !pendingOf_app, !completedOf_app. unfold pendingOf, completedOf.
    simpl. split; intros E; rewrite E; simpl; rewrite !length_app; simpl;
      repeat split; lia.
Qed.

Lemma toggle_moves_one_task_witness :
  NoDup (ids ([milk] ++ mkTodo (lit "c") (lit "x") false 3
                          :: [mkTodo (lit "d") (lit "y") true 4]))
  /\ toggleTodo (lit "c") ([milk] ++ mkTodo (lit "c") (lit "x") false 3
                                    :: [mkTodo (lit "d") (lit "y") true 4])
     = [milk; mkTodo (lit "c") (lit "x") true 3; mkTodo (lit "d") (lit "y") true 4].
Proof.
  assert (H : NoDup (ids ([milk] ++ mkTodo (lit "c") (lit "x") false 3
                                   :: [mkTodo (lit "d") (lit "y") true 4]))).
  { repeat constructor; simpl; intuition discriminate. }
  split; [exact H|].
  apply (proj1 (toggle_moves_one_task [milk]
                  [mkTodo (lit "d") (lit "y") true 4]
                  (mkTodo (lit "c") (lit "x") false 3) H)).
Defined.

(** ** How the handlers compose *)

Lemma filter_comm {A : Type} (p q : A -> bool) (l : list A) :
  List.filter p (List.filter q l) = List.filter q (List.filter p l).
Proof.
  induction l as [|x l IH]; simpl; [reflexivity|].
  destruct (p x) eqn:P, (q x) eqn:Q; simpl; rewrite ?P, ?Q; congruence.
Qed.

Lemma toggleTodo_comm (i j : jsstring) (l : list Todo) :
  toggleTodo i (toggleTodo j l) = toggleTodo j (toggleTodo i l).
Proof.
  unfold toggleTodo. rewrite !map_map. apply map_ext. intros t.
  destruct (jsstring_eqb (id t) j) eqn:J, (jsstring_eqb (id t) i) eqn:I;
    simpl; rewrite ?J, ?I; reflexivity.
Qed.

Lemma deleteTodo_toggleTodo (i j : jsstring) (l : list Todo) :
  deleteTodo i (toggleTodo j l) = toggleTodo j (deleteTodo i l).
Proof.
  induction l as [|t l IH]; [reflexivity|]. simpl.
  destruct (jsstring_eqb (id t) j) eqn:J; simpl;
    destruct (jsstring_eqb (id t) i) eqn:I; simpl; rewrite ?J; congruence.
Qed.

Lemma deleteTodo_toggleTodo_same (i : jsstring) (l : list Todo) :
  deleteTodo i (toggleTodo i l) = deleteTodo i l.
Proof.
  induction l as [|t l IH]; [reflexivity|]. simpl.
  destruct (jsstring_eqb (id t) i) eqn:I; simpl; rewrite I; simpl; congruence.
Qed.

(** X15.  toggle and deleteOne commute, with themselves and with each
    other, for any two ids; deleteOne commutes with clearCompleted and is
    idempotent; toggling an id just before or after deleting it makes no
    difference. *)
Theorem toggles_and_deletes_commute (i j : jsstring) (l : list Todo) :
  toggleTodo i (toggleTodo j l) = toggleTodo j (toggleTodo i l)
  /\ deleteTodo i (deleteTodo j l) = deleteTodo j (deleteTodo i l)
  /\ deleteTodo i (toggleTodo j l) = toggleTodo j (deleteTodo i l)
  /\ deleteTodo i (clearCompleted l) = clearCompleted (deleteTodo i l)
  /\ deleteTodo i (deleteTodo i l) = deleteTodo i l
  /\ deleteTodo i (toggleTodo i l) = deleteTodo i l
  /\ toggleTodo i (deleteTodo i l) = deleteTodo i l.
Proof.
  split; [apply toggleTodo_comm|]. split; [apply filter_comm|].
  split; [apply deleteTodo_toggleTodo|]. split; [apply filter_comm|].
  split; [apply filter_idempotent|]. split; [apply deleteTodo_toggleTodo_same|].
  rewrite <- deleteTodo_toggleTodo. apply deleteTodo_toggleTodo_same.
Qed.

(** X16.  deleteOne of the id just generated undoes the add, when that id
    was new to the collection. *)
Theorem delete_undoes_add (w : World) (rawText uuid : jsstring) (now : Z) :
  ~ In uuid (ids (todos (app w))) ->
  todos (app (run [Add rawText uuid now; DeleteOne uuid] w)) = todos (app w).
Proof.
  intros H. rewrite run_todos_fold. simpl.
  destruct (truthy (trim rawText)).
  - simpl. rewrite jsstring_eqb_refl. simpl. now apply deleteTodo_absent.
  - now apply deleteTodo_absent.
Qed.

Lemma delete_undoes_add_witness :
  ~ In (lit "n") (ids (todos (app (persist (mkApp [milk] [] FAll) []))))
  /\ todos (app (run [Add (lit "A") (lit "n") 7; DeleteOne (lit "n")]
                     (persist (mkApp [milk] [] FAll) [])))
     = [milk].
Proof.
  assert (H : ~ In (lit "n")
                (ids (todos (app (persist (mkApp [milk] [] FAll) []))))).
  { simpl. intuition discriminate. }
  split; [exact H|].
  apply (delete_undoes_add (persist (mkApp [milk] [] FAll) []) (lit "A")
           (lit "n") 7 H).
Defined.

Lemma clear_toggle_delete (i : jsstring) (l : list Todo) :
  Forall (fun t => id t = i -> completed t = false) l ->
  clearCompleted (toggleTodo i l) = clearCompleted (deleteTodo i l).
Proof.
  induction l as [|t l IH]; intros H; [reflexivity|].
  inversion H as [|? ? Ht Hl]; subst. simpl.
  destruct (jsstring_eqb (id t) i) eqn:I; simpl.
  - apply jsstring_eqb_eq in I. rewrite (Ht I). simpl. now apply IH.
  - destruct (completed t); simpl; [now apply IH | f_equal; now apply IH].
Qed.

(** X17.  Completing a task and clearing comes to deleting it and
    clearing: when the tasks of an id are all pending, toggle then
    clearCompleted gives what deleteOne then clearCompleted gives, and no
    task of that id is left. *)
Theorem completing_then_clearing_deletes (w : World) (i : jsstring) :
  Forall (fun t => id t = i -> completed t = false) (todos (app w)) ->
  todos (app (run [Toggle i; ClearCompleted] w))
  = todos (app (run [DeleteOne i; ClearCompleted] w))
  /\ ~ In i (ids (todos (app (run [Toggle i; ClearCompleted] w)))).
Proof.
  intros H. rewrite !run_todos_fold. simpl.
  rewrite clear_toggle_delete by exact H. split; [reflexivity|].
  intros Hin. unfold ids in Hin. apply in_map_iff in Hin as (t & E & Hin).
  unfold clearCompleted in Hin. apply filter_In in Hin as [Hin _].
  unfold deleteTodo in Hin. apply filter_In in Hin as [_ Hne].
  apply negb_true_iff, jsstring_eqb_neq in Hne. contradiction.
Qed.

Lemma completing_then_clearing_deletes_witness :
  Forall (fun t => id t = lit "b" -> completed t = false)
         (todos (app (persist (mkApp [milk] [] FAll) [])))
  /\ todos (app (run [Toggle (lit "b"); ClearCompleted]
                     (persist (mkApp [milk] [] FAll) [])))
     = todos (app (run [DeleteOne (lit "b"); ClearCompleted]
                       (persist (mkApp [milk] [] FAll) []))).
Proof.
  assert (H : Forall (fun t => id t = lit "b" -> completed t = false)
                     (todos (app (persist (mkApp [milk] [] FAll) []))))
    by (repeat constructor).
  split; [exact H|].
  apply (proj1 (completing_then_clearing_deletes
                  (persist (mkApp [milk] [] FAll) []) (lit "b") H)).
Defined.

(** ** The stored text tells the collections apart *)

(** X18.  Two different collections never have the same stored text. *)
Theorem save_is_injective (C1 C2 : list Todo) :
  Forall wf_todo C1 -> Forall wf_todo C2 ->
  C1 <> C2 -> save C1 <> save C2.
Proof.
  intros H1 H2 Hne E. apply Hne.
  pose proof (load_save C1 H1) as L1. pose proof (load_save C2 H2) as L2.
  rewrite E in L1.
  assert (L : todos_to_json C1 = todos_to_json C2) by congruence.
  pose proof (todos_of_json_to_json C1 H1) as D1.
  rewrite L, (todos_of_json_to_json C2 H2) in D1. now injection D1.
Qed.

Lemma save_is_injective_witness :
  Forall wf_todo [milk; errand] /\ Forall wf_todo [milk; flip errand]
  /\ [milk; errand] <> [milk; flip errand]
  /\ save [milk; errand] <> save [milk; flip errand].
Proof.
  assert (H1 : Forall wf_todo [milk; errand]) by (repeat constructor).
  assert (H2 : Forall wf_todo [milk; flip errand]) by (repeat constructor).
  assert (H3 : [milk; errand] <> [milk; flip errand]) by discriminate.
  split; [exact H1|]. split; [exact H2|]. split; [exact H3|].
  apply (save_is_injective [milk; errand] [milk; flip errand] H1 H2 H3).
Defined.

(** ** What is on display *)

(** X19.  The footer shows exactly when the all view has something to
    list.  Without the footer no view lists anything; after clearing the
    completed view lists nothing and the footer stays exactly when the
    pending view had tasks; with the footer at least one of the pending
    and completed views lists something. *)
Theorem footer_and_empty_message (l : list Todo) (f : FilterType) :
  showsList l FAll = showsFooter l
  /\ (showsFooter l = false -> showsList l f = false)
  /\ (showsList l f = true -> showsFooter l = true)
  /\ showsList (clearCompleted l) FCompleted = false
  /\ showsFooter (clearCompleted l) = showsList l FPending
  /\ (showsFooter l = true ->
      showsList l FPending = true \/ showsList l FCompleted = true).
Proof.
  unfold showsList, showsFooter.
  assert (Hle : (List.length (filteredTodos l f) <= List.length l)%nat).
  { destruct f; simpl; [lia | apply filter_length_le | apply filter_length_le]. }
  split; [reflexivity|]. split; [|split; [|split; [|split]]].
  - intros H. apply Nat.ltb_ge in H. apply Nat.ltb_ge. lia.
  - intros H. apply Nat.ltb_lt in H. apply Nat.ltb_lt. lia.
  - simpl. unfold completedOf, clearCompleted.
    now rewrite (filter_filter_none completed).
  - reflexivity.
  - intros H. apply Nat.ltb_lt in H.
    pose proof (stats_partition l) as P. simpl in *.
    destruct (List.length (pendingOf l)) eqn:E; [right | now left].
    apply Nat.ltb_lt. lia.
Qed.

Lemma footer_and_empty_message_witness :
  showsFooter [] = false /\ showsList [] FPending = false.
Proof.
  split; [reflexivity|].
  apply (proj1 (proj2 (footer_and_empty_message [] FPending))).
  reflexivity.
Defined.
